(** * Inertial-property pipeline of the Taks_T1 asset scripts

    A shallow embedding of [assets/Taks_T1/calculate_inertia.py] and
    [assets/Taks_T1/calculate_inertia_from_stl.py].

    The values of Python floats are idealised as real numbers: every
    arithmetic expression of the source is kept with its operator order
    and evaluated in [R].  The finite range of binary64 is kept where the
    code answers it with an exception: Python's [**] raises
    [OverflowError] on a square that is out of range, and scipy refuses a
    quaternion whose norm underflows to zero.  Where rounding decides a
    comparison, a printed warning or an equality between entries, the
    same expressions are evaluated on binary64 numbers in the module
    [Binary64].
    numpy arrays of shape (3,) and (3,3) are triples and triples of rows.
    The numpy, scipy and trimesh calls the scripts make are modelled by the
    computation those libraries document ([Rotation.from_quat],
    [Rotation.as_matrix], [Rotation.from_matrix], [argsort]) or, for the
    eigen-solver and the mesh integrals, taken as data. *)

From Stdlib Require Import PrimFloat.
Set Warnings "-inexact-float".
From Stdlib Require Import Reals Lra Psatz RNsatz List String Bool.
Import ListNotations.
Open Scope string_scope.
Open Scope list_scope.
Open Scope R_scope.

(** ** numpy arrays of fixed shape *)

Module Linalg.

Definition vec3 : Type := (R * R * R)%type.
Definition mat3 : Type := (vec3 * vec3 * vec3)%type.

Inductive idx3 : Type := I0 | I1 | I2.

(** [v[i]] *)
Definition vget (v : vec3) (i : idx3) : R :=
  let '(a, b, c) := v in
  match i with I0 => a | I1 => b | I2 => c end.

(** [M[i, :]] *)
Definition mrow (M : mat3) (i : idx3) : vec3 :=
  let '(r0, r1, r2) := M in
  match i with I0 => r0 | I1 => r1 | I2 => r2 end.

(** [M[i, j]] *)
Definition mget (M : mat3) (i j : idx3) : R := vget (mrow M i) j.

(** [M[:, j]] *)
Definition mcol (M : mat3) (j : idx3) : vec3 :=
  (mget M I0 j, mget M I1 j, mget M I2 j).

(** [np.diag(v)] for a vector [v] *)
Definition diag (v : vec3) : mat3 :=
  let '(a, b, c) := v in
  ((a, 0, 0), (0, b, 0), (0, 0, c)).

(** [M.T] *)
Definition transpose (M : mat3) : mat3 :=
  (mcol M I0, mcol M I1, mcol M I2).

Definition dot (u v : vec3) : R :=
  let '(a, b, c) := u in
  let '(x, y, z) := v in
  a * x + b * y + c * z.

(** [A @ B] *)
Definition matmul (A B : mat3) : mat3 :=
  let row (i : idx3) :=
    (dot (mrow A i) (mcol B I0),
     dot (mrow A i) (mcol B I1),
     dot (mrow A i) (mcol B I2)) in
  (row I0, row I1, row I2).

(** [np.linalg.det(M)], by expansion along the first row *)
Definition det (M : mat3) : R :=
  let '((a, b, c), (d, e, f), (g, h, i)) := M in
  a * (e * i - f * h) - b * (d * i - f * g) + c * (d * h - e * g).

Definition trace (M : mat3) : R :=
  mget M I0 I0 + mget M I1 I1 + mget M I2 I2.

Definition identity : mat3 := ((1, 0, 0), (0, 1, 0), (0, 0, 1)).

Definition vadd (u v : vec3) : vec3 :=
  let '(a, b, c) := u in
  let '(x, y, z) := v in
  (a + x, b + y, c + z).

Definition vsub (u v : vec3) : vec3 :=
  let '(a, b, c) := u in
  let '(x, y, z) := v in
  (a - x, b - y, c - z).

(** [v / k] *)
Definition vdiv (v : vec3) (k : R) : vec3 :=
  let '(a, b, c) := v in
  (a / k, b / k, c / k).

(** [k * M] *)
Definition mscale (k : R) (M : mat3) : mat3 :=
  let sc (v : vec3) := let '(a, b, c) := v in (k * a, k * b, k * c) in
  let '(r0, r1, r2) := M in
  (sc r0, sc r1, sc r2).

(** [M[:, [i, j, k]]]: the columns of [M] picked in the given order *)
Definition take_cols (M : mat3) (idx : idx3 * idx3 * idx3) : mat3 :=
  let '(i, j, k) := idx in
  transpose (mcol M i, mcol M j, mcol M k).

(** [v[[i, j, k]]] *)
Definition take (v : vec3) (idx : idx3 * idx3 * idx3) : vec3 :=
  let '(i, j, k) := idx in
  (vget v i, vget v j, vget v k).

Definition symmetric (M : mat3) : Prop :=
  forall i j : idx3, mget M i j = mget M j i.

(** [M.T @ M] is the identity *)
Definition orthogonal (M : mat3) : Prop :=
  matmul (transpose M) M = identity.

Definition ascending (v : vec3) : Prop :=
  let '(a, b, c) := v in a <= b /\ b <= c.

End Linalg.
Import Linalg.

(** ** Python exceptions the scripts can raise *)

Inductive exn : Type :=
| UnknownShape (shape : string)
    (** [ValueError(f"Unknown shape: {shape}")] *)
| IndexError
    (** [dims[i]] past the end of the list *)
| UnpackError
    (** [w, x, y, z = quat] on a list that has not four items *)
| ZeroNormQuaternion
    (** the [ValueError] of scipy's [Rotation.from_quat] *)
| OverflowError
    (** [x ** 2] on a float whose square is out of range *)
| LoadError (file : string).
    (** whatever [trimesh.load] raises on an unreadable file *)

Inductive result (A : Type) : Type :=
| Ok (a : A)
| Raise (e : exn).
Arguments Ok {A} a.
Arguments Raise {A} e.

Definition bind {A B : Type} (m : result A) (k : A -> result B) : result B :=
  match m with
  | Ok a => k a
  | Raise e => Raise e
  end.

Notation "x <- m ;; k" := (bind m (fun x => k))
  (at level 61, m at next level, right associativity).
Notation "' p <- m ;; k" := (bind m (fun x => let p := x in k))
  (at level 61, p pattern, m at next level, right associativity).

(** [l[i]] on a Python list *)
Definition index {A : Type} (l : list A) (i : nat) : result A :=
  match nth_error l i with
  | Some a => Ok a
  | None => Raise IndexError
  end.

(** [d[k] = v] on an insertion-ordered dictionary. *)
Fixpoint dict_set {V : Type} (d : list (string * V)) (k : string) (v : V)
  : list (string * V) :=
  match d with
  | [] => [(k, v)]
  | (k', v') :: rest =>
      if String.eqb k' k then (k, v) :: rest
      else (k', v') :: dict_set rest k v
  end.

(** [d.get(k)] *)
Fixpoint dict_get {V : Type} (d : list (string * V)) (k : string)
  : option V :=
  match d with
  | [] => None
  | (k', v') :: rest => if String.eqb k' k then Some v' else dict_get rest k
  end.

(** ** The range of binary64 *)

(** Python floats and numpy's float64 are binary64 numbers.  Two effects
    of their range reach the control flow of the scripts and are part of
    the model: a square that rounds to infinity, and a square that rounds
    to zero. *)

(** The least real that rounds to infinity: halfway between the largest
    binary64 number, [2^1024 - 2^971], and [2^1024]. *)
Definition overflow_threshold : R := 2 ^ 1024 - 2 ^ 970.

(** The largest real that rounds to zero: half the least positive
    binary64 number, [2^-1074]; the tie goes to zero. *)
Definition underflow_threshold : R := / 2 ^ 1075.

Definition square_overflows (x : R) : bool :=
  if Rle_dec overflow_threshold (x * x) then true else false.

Definition square_underflows (x : R) : bool :=
  if Rle_dec (x * x) underflow_threshold then true else false.

(** ** scipy.spatial.transform.Rotation *)

Module Rotation.

(** scipy's own quaternion layout, scalar last: [x, y, z, w]. *)
Definition quat_xyzw : Type := (R * R * R * R)%type.

Definition norm (q : quat_xyzw) : R :=
  let '(x, y, z, w) := q in
  sqrt (x * x + y * y + z * z + w * w).

(** The test [norm == 0] of [from_quat].  It is made on the binary64
    norm, the square root of the sum of the four rounded squares, which
    is zero exactly when each of the four squares rounds to zero. *)
Definition zero_norm (q : quat_xyzw) : bool :=
  let '(x, y, z, w) := q in
  square_underflows x && square_underflows y &&
  square_underflows z && square_underflows w.

(** [Rotation.from_quat]: the stored quaternion is the input divided by
    its norm; a quaternion of norm zero is refused. *)
Definition from_quat (q : quat_xyzw) : result quat_xyzw :=
  let '(x, y, z, w) := q in
  let n := norm q in
  if zero_norm q then Raise ZeroNormQuaternion
  else Ok (x / n, y / n, z / n, w / n).

(** [Rotation.as_matrix] on the stored unit quaternion. *)
Definition as_matrix (q : quat_xyzw) : mat3 :=
  let '(x, y, z, w) := q in
  let x2 := x * x in
  let y2 := y * y in
  let z2 := z * z in
  let w2 := w * w in
  let xy := x * y in
  let zw := z * w in
  let xz := x * z in
  let yw := y * w in
  let yz := y * z in
  let xw := x * w in
  ((x2 - y2 - z2 + w2, 2 * (xy - zw), 2 * (xz + yw)),
   (2 * (xy + zw), - x2 + y2 - z2 + w2, 2 * (yz - xw)),
   (2 * (xz - yw), 2 * (yz + xw), - x2 - y2 + z2 + w2)).

(** [np.argmax] over the four decision values: the first index that
    holds the maximum. *)
Inductive choice : Type := C0 | C1 | C2 | C3.

Definition argmax4 (d0 d1 d2 d3 : R) : choice :=
  let best01 := if Rlt_dec d0 d1 then (C1, d1) else (C0, d0) in
  let best012 := if Rlt_dec (snd best01) d2 then (C2, d2) else best01 in
  if Rlt_dec (snd best012) d3 then C3 else fst best012.

(** [Rotation.from_matrix] followed by [as_quat], for a matrix that is
    already orthogonal (no re-orthogonalisation step): the component
    that is numerically largest is computed from the diagonal, the
    others from the off-diagonal sums and differences, and the result
    is normalised. *)
Definition from_matrix_raw (M : mat3) : quat_xyzw :=
  let m := mget M in
  let tr := m I0 I0 + m I1 I1 + m I2 I2 in
  match argmax4 (m I0 I0) (m I1 I1) (m I2 I2) tr with
  | C0 => (1 - tr + 2 * m I0 I0, m I1 I0 + m I0 I1, m I2 I0 + m I0 I2,
           m I2 I1 - m I1 I2)
  | C1 => (m I0 I1 + m I1 I0, 1 - tr + 2 * m I1 I1, m I2 I1 + m I1 I2,
           m I0 I2 - m I2 I0)
  | C2 => (m I0 I2 + m I2 I0, m I1 I2 + m I2 I1, 1 - tr + 2 * m I2 I2,
           m I1 I0 - m I0 I1)
  | C3 => (m I2 I1 - m I1 I2, m I0 I2 - m I2 I0, m I1 I0 - m I0 I1,
           1 + tr)
  end.

Definition from_matrix (M : mat3) : quat_xyzw :=
  let q := from_matrix_raw M in
  let '(x, y, z, w) := q in
  let n := norm q in
  (x / n, y / n, z / n, w / n).

End Rotation.

(** MuJoCo's layout, scalar first: [w, x, y, z]. *)
Definition quat_wxyz : Type := (R * R * R * R)%type.

Definition quat_norm2 (q : quat_wxyz) : R :=
  let '(w, x, y, z) := q in
  w * w + x * x + y * y + z * z.

(** ** Diagnostics printed by the validity checkers *)

Inductive violated : Type :=
| XY_lt_Z   (** the line [Ixx + Iyy < Izz] *)
| YZ_lt_X   (** the line [Iyy + Izz < Ixx] *)
| ZX_lt_Y.  (** the line [Izz + Ixx < Iyy] *)

(** One printed warning: the body, the inequality that failed and the
    three numbers of the message, in the order they are printed. *)
Record warning : Type := Warning {
  w_name : string;
  w_which : violated;
  w_left1 : R;
  w_left2 : R;
  w_right : R
}.

(** ** calculate_inertia.py *)

Module CalculateInertia.

Definition quat_to_rotation_matrix (quat : quat_wxyz) : result mat3 :=
  let '(w, x, y, z) := quat in
  r <- Rotation.from_quat (x, y, z, w) ;;
  Ok (Rotation.as_matrix r).

Definition rotate_inertia (diag_inertia : vec3) (quat : quat_wxyz)
  : result mat3 :=
  let I_principal := diag diag_inertia in
  R <- quat_to_rotation_matrix quat ;;
  let I_body := matmul (matmul R I_principal) (transpose R) in
  Ok I_body.

Definition inertia_tensor_to_urdf (I : mat3) : R * R * R * R * R * R :=
  let ixx := mget I I0 I0 in
  let iyy := mget I I1 I1 in
  let izz := mget I I2 I2 in
  let ixy := mget I I0 I1 in
  let ixz := mget I I0 I2 in
  let iyz := mget I I1 I2 in
  (ixx, ixy, ixz, iyy, iyz, izz).

Definition inertia_box (mass lx ly lz : R) : vec3 :=
  let Ixx := (1 / 12) * mass * (ly ^ 2 + lz ^ 2) in
  let Iyy := (1 / 12) * mass * (lx ^ 2 + lz ^ 2) in
  let Izz := (1 / 12) * mass * (lx ^ 2 + ly ^ 2) in
  (Ixx, Iyy, Izz).

Definition inertia_cylinder_z (mass radius height : R) : vec3 :=
  let Iyy := (1 / 12) * mass * (3 * radius ^ 2 + height ^ 2) in
  let Ixx := Iyy in
  let Izz := (1 / 2) * mass * radius ^ 2 in
  (Ixx, Iyy, Izz).

Definition inertia_cylinder_y (mass radius height : R) : vec3 :=
  let Iyy := (1 / 2) * mass * radius ^ 2 in
  let Izz := (1 / 12) * mass * (3 * radius ^ 2 + height ^ 2) in
  let Ixx := Izz in
  (Ixx, Iyy, Izz).

Definition inertia_sphere (mass radius : R) : vec3 :=
  let I := (2 / 5) * mass * radius ^ 2 in
  (I, I, I).

(** The printed lines are returned next to the flag. *)
Definition validate_inertia (name : string) (ixx iyy izz : R)
  : list warning * bool :=
  let st : list warning * bool := ([], true) in
  let st :=
    if Rlt_dec (ixx + iyy) izz
    then (fst st ++ [Warning name XY_lt_Z ixx iyy izz], false) else st in
  let st :=
    if Rlt_dec (iyy + izz) ixx
    then (fst st ++ [Warning name YZ_lt_X iyy izz ixx], false) else st in
  let st :=
    if Rlt_dec (izz + ixx) iyy
    then (fst st ++ [Warning name ZX_lt_Y izz ixx iyy], false) else st in
  st.

(** One value of the [all_links] table.  The keys [mass], [shape],
    [dims] and [com] are present in every entry; [quat] is optional.
    The numbers are Python floats, as in the table of the script. *)
Record link_data : Type := LinkData {
  mass : R;
  shape : string;
  dims : list R;
  com : list R;
  quat : option (list R)
}.

(** The table of the script, in the order of its source text. *)
Definition all_links : list (string * link_data) :=
[
  ("pelvis",
   LinkData 3.34 "box" [0.18; 0.16; 0.12]
     [0.00454; 0.0; -0.07726] None);
  ("left_hip_pitch_link",
   LinkData 0.91 "box" [0.06; 0.06; 0.10]
     [0.0; 0.0383; -0.0209] (Some [0.954862; 0.293964; 0.0302556; 0.030122]));
  ("left_hip_roll_link",
   LinkData 0.79 "cylinder_z" [0.04; 0.10]
     [0.0; -0.00737; 0.0739] None);
  ("left_hip_yaw_link",
   LinkData 1.822 "box" [0.12; 0.10; 0.22]
     [-0.025; 0.0; -0.083] None);
  ("left_knee_link",
   LinkData 1.138 "box" [0.08; 0.08; 0.22]
     [-0.00222; 0.0109; -0.1568] None);
  ("left_ankle_pitch_link",
   LinkData 0.23 "box" [0.03; 0.08; 0.03]
     [0.0; 0.0; 0.0] None);
  ("left_ankle_roll_link",
   LinkData 0.15 "box" [0.22; 0.10; 0.025]
     [0.00161; 0.00307; -0.0384] None);
  ("right_hip_pitch_link",
   LinkData 0.91 "box" [0.06; 0.06; 0.10]
     [0.0; -0.0383; -0.0209] (Some [0.954862; -0.293964; 0.0302556; -0.030122]));
  ("right_hip_roll_link",
   LinkData 0.79 "cylinder_z" [0.04; 0.10]
     [0.0; -0.00737; 0.0739] None);
  ("right_hip_yaw_link",
   LinkData 1.822 "box" [0.12; 0.10; 0.22]
     [-0.025; 0.0; -0.083] None);
  ("right_knee_link",
   LinkData 1.138 "box" [0.08; 0.08; 0.22]
     [0.00305; 0.0103; -0.1537] None);
  ("right_ankle_pitch_link",
   LinkData 0.23 "box" [0.04; 0.03; 0.03]
     [0.024; 0.0; 0.0] None);
  ("right_ankle_roll_link",
   LinkData 0.15 "box" [0.22; 0.10; 0.025]
     [-0.00161; 0.00308; -0.0384] None);
  ("waist_yaw_link",
   LinkData 0.79 "cylinder_z" [0.05; 0.06]
     [0.000694; 3.7e-05; 0.023535] None);
  ("waist_roll_link",
   LinkData 1.56 "box" [0.10; 0.10; 0.14]
     [-0.03647; 0.001918; 0.039525] None);
  ("torso_link",
   LinkData 2.01 "box" [0.20; 0.15; 0.35]
     [-0.000232; 0.028443; 0.216034] None);
  ("left_shoulder_pitch_link",
   LinkData 0.24 "box" [0.05; 0.08; 0.04]
     [-0.003513; 0.038593; 0.000147] None);
  ("left_shoulder_roll_link",
   LinkData 0.92 "cylinder_z" [0.04; 0.14]
     [-0.034364; 0.004091; -0.054537] None);
  ("left_shoulder_yaw_link",
   LinkData 0.625 "cylinder_z" [0.04; 0.18]
     [0.000365; -7.2e-05; -0.086229] None);
  ("left_elbow_link",
   LinkData 0.552 "cylinder_y" [0.03; 0.14]
     [0.060258; -0.018902; -0.00551] None);
  ("left_wrist_roll_link",
   LinkData 0.508 "cylinder_y" [0.025; 0.13]
     [0.059349; 0.0; 0.000843] None);
  ("left_wrist_yaw_link",
   LinkData 0.37 "cylinder_z" [0.03; 0.07]
     [0.0; 0.001805; 0.034219] None);
  ("left_wrist_pitch_link",
   LinkData 0.308 "box" [0.22; 0.08; 0.06]
     [0.076857; -0.017165; 0.011311] None);
  ("right_shoulder_pitch_link",
   LinkData 0.24 "box" [0.05; 0.08; 0.04]
     [-0.003513; -0.038593; 0.000147] None);
  ("right_shoulder_roll_link",
   LinkData 0.92 "cylinder_z" [0.04; 0.14]
     [-0.027363; -0.004095; -0.054537] None);
  ("right_shoulder_yaw_link",
   LinkData 0.625 "cylinder_z" [0.04; 0.18]
     [0.000364; 6.6e-05; -0.08623] None);
  ("right_elbow_link",
   LinkData 0.552 "cylinder_y" [0.03; 0.14]
     [0.060603; -0.027325; -0.005367] None);
  ("right_wrist_roll_link",
   LinkData 0.508 "cylinder_y" [0.025; 0.13]
     [0.059331; 0.0; 0.000847] None);
  ("right_wrist_yaw_link",
   LinkData 0.37 "cylinder_z" [0.03; 0.07]
     [0.0; -0.001803; 0.034219] None);
  ("right_wrist_pitch_link",
   LinkData 0.308 "box" [0.22; 0.08; 0.06]
     [0.076858; 0.017168; 0.01131] None);
  ("neck_yaw_link",
   LinkData 0.4 "cylinder_z" [0.04; 0.08]
     [-0.026005; 0.0; 0.044508] None);
  ("neck_roll_link",
   LinkData 0.026 "sphere" [0.02]
     [0.05706; -0.000635; 0.0] None);
  ("neck_pitch_link",
   LinkData 0.6 "box" [0.18; 0.18; 0.18]
     [0.00; -0.020599; 0.105269] (Some [0.966; 0.001; 0.087; 0.001]))
].

(** [w, x, y, z = quat], the first statement of
    [quat_to_rotation_matrix], done by the caller that holds the list. *)
Definition unpack4 (l : list R) : result quat_wxyz :=
  match l with
  | [w; x; y; z] => Ok (w, x, y, z)
  | _ => Raise UnpackError
  end.

(** The [** 2] of the shape formulas.  On Python floats it raises
    [OverflowError] when the square is out of range.  The formulas above
    are kept total; the check of the squares they take is made on the
    dimensions that are handed to them. *)
Fixpoint power_check (ds : list R) : result unit :=
  match ds with
  | [] => Ok tt
  | d :: rest =>
      if square_overflows d then Raise OverflowError else power_check rest
  end.

Definition calculate_inertia (link_data : link_data)
  : result (R * R * R * option mat3 * option (list R)) :=
  let mass := mass link_data in
  let shape := shape link_data in
  let dims := dims link_data in
  diag <-
    (if String.eqb shape "box" then
       d0 <- index dims 0 ;; d1 <- index dims 1 ;; d2 <- index dims 2 ;;
       _ <- power_check [d0; d1; d2] ;;
       Ok (inertia_box mass d0 d1 d2)
     else if String.eqb shape "cylinder_z" then
       d0 <- index dims 0 ;; d1 <- index dims 1 ;;
       _ <- power_check [d0; d1] ;;
       Ok (inertia_cylinder_z mass d0 d1)
     else if String.eqb shape "cylinder_y" then
       d0 <- index dims 0 ;; d1 <- index dims 1 ;;
       _ <- power_check [d0; d1] ;;
       Ok (inertia_cylinder_y mass d0 d1)
     else if String.eqb shape "sphere" then
       d0 <- index dims 0 ;;
       _ <- power_check [d0] ;;
       Ok (inertia_sphere mass d0)
     else Raise (UnknownShape shape)) ;;
  match quat link_data with
  | Some quat =>
      q <- unpack4 quat ;;
      I_full <- rotate_inertia diag q ;;
      Ok (vget diag I0, vget diag I1, vget diag I2, Some I_full, Some quat)
  | None =>
      Ok (vget diag I0, vget diag I1, vget diag I2, None, None)
  end.

(** One value of the [results] dictionary of [main]. *)
Record entry : Type := Entry {
  e_mass : R;
  e_com : list R;
  e_diag_inertia : R * R * R;
  e_full_inertia : option mat3;
  e_quat : option (list R)
}.

(** The variables of [main] that its first loop updates, and what it
    has printed so far. *)
Record loop_state : Type := LoopState {
  results : list (string * entry);
  all_valid : bool;
  stdout : list warning
}.

Definition loop_init : loop_state := LoopState [] true [].

(** The body of the first [for] loop of [main]: one body computed,
    checked and recorded. *)
Definition loop_body (name : string) (data : link_data) (st : loop_state)
  : result loop_state :=
  '(ixx, iyy, izz, I_full, quat) <- calculate_inertia data ;;
  let '(printed, valid) := validate_inertia name ixx iyy izz in
  let all_valid := if negb valid then false else all_valid st in
  let results :=
    dict_set (results st) name
      (Entry (mass data) (com data) (ixx, iyy, izz) I_full quat) in
  Ok (LoopState results all_valid (stdout st ++ printed)).

(** The loop itself, over the items of the table in order.  An exception
    of the body is not caught: it leaves the loop with the state reached
    so far. *)
Fixpoint main_loop (links : list (string * link_data)) (st : loop_state)
  : loop_state * option exn :=
  match links with
  | [] => (st, None)
  | (name, data) :: rest =>
      match loop_body name data st with
      | Raise e => (st, Some e)
      | Ok st1 => main_loop rest st1
      end
  end.

(** The two printing loops of [main] read [com[0]], [com[1]] and
    [com[2]] of every recorded body.  The text they print is not
    modelled; the [IndexError] of a [com] list that is too short is. *)
Definition print_entry (e : entry) : result unit :=
  _ <- index (e_com e) 0 ;;
  _ <- index (e_com e) 1 ;;
  _ <- index (e_com e) 2 ;;
  Ok tt.

Fixpoint print_results (res : list (string * entry)) : result unit :=
  match res with
  | [] => Ok tt
  | (_, e) :: rest => _ <- print_entry e ;; print_results rest
  end.

(** [main]: what the checker printed, and either the returned [results]
    or the exception that ended the run. *)
Definition main (links : list (string * link_data))
  : list warning * result (list (string * entry)) :=
  match main_loop links loop_init with
  | (st, None) =>
      (stdout st, _ <- print_results (results st) ;; Ok (results st))
  | (st, Some e) => (stdout st, Raise e)
  end.

End CalculateInertia.

(** ** trimesh.Trimesh, as far as the scripts read and write it *)

Module Trimesh.

(** A mesh with at least one vertex, so that [bounds] exists.  The
    geometry fixes the volume, the centre of mass, the bounding box and
    the inertia tensor at unit density; [density] is the one attribute
    the scripts assign. *)
Record mesh : Type := Mesh {
  geom_volume : R;
  geom_center_mass : vec3;
  geom_unit_inertia : mat3;
  geom_bounds : vec3 * vec3;
  is_watertight : bool;
  density : R
}.

Definition volume (m : mesh) : R := geom_volume m.
Definition center_mass (m : mesh) : vec3 := geom_center_mass m.
Definition bounds (m : mesh) : vec3 * vec3 := geom_bounds m.

(** [mesh.moment_inertia]: the unit-density tensor times the density. *)
Definition moment_inertia (m : mesh) : mat3 :=
  mscale (density m) (geom_unit_inertia m).

(** [mesh.density = d] *)
Definition set_density (m : mesh) (d : R) : mesh :=
  Mesh (geom_volume m) (geom_center_mass m) (geom_unit_inertia m)
       (geom_bounds m) (is_watertight m) d.

End Trimesh.

(** ** calculate_inertia_from_stl.py *)

Module CalculateInertiaFromStl.

(** The lines the script prints while it processes the files. *)
Inductive line : Type :=
| Processing (link_name : string)
| MassNotFound (link_name : string)
| NotWatertight (link_name : string)
| InvalidVolume
| Triangle (w : warning)
| Summary (link_name : string) (mass : R) (com : vec3) (principal : vec3).

(** [argsort] of three keys: the stable order in which an insertion sort
    leaves the indices. *)
Definition argsort (v : vec3) : idx3 * idx3 * idx3 :=
  let '(a, b, c) := v in
  if Rlt_dec b a then
    if Rlt_dec c a then
      if Rlt_dec c b then (I2, I1, I0) else (I1, I2, I0)
    else (I1, I0, I2)
  else
    if Rlt_dec c b then
      if Rlt_dec c a then (I2, I0, I1) else (I0, I2, I1)
    else (I0, I1, I2).

(** [eigenvectors[:, 0] *= -1] *)
Definition negate_col0 (M : mat3) : mat3 :=
  let '((a, b, c), (d, e, f), (g, h, i)) := M in
  ((-1 * a, b, c), (-1 * d, e, f), (-1 * g, h, i)).

(** The mesh is an object the caller keeps: the function returns it next
    to its results, with whatever it assigned. *)
Definition compute_inertia_from_mesh (mesh : Trimesh.mesh) (mass : R)
  : Trimesh.mesh * list line * (vec3 * mat3) :=
  let mesh :=
    if Rlt_dec 0 (Trimesh.volume mesh) then
      let density := mass / Trimesh.volume mesh in
      Trimesh.set_density mesh density
    else mesh in
  let com := Trimesh.center_mass mesh in
  let inertia := Trimesh.moment_inertia mesh in
  if Rle_dec (Trimesh.volume mesh) 0 then
    let bounds := Trimesh.bounds mesh in
    let size := vsub (snd bounds) (fst bounds) in
    let com := vdiv (vadd (fst bounds) (snd bounds)) 2 in
    let ixx := (1 / 12) * mass * (vget size I1 ^ 2 + vget size I2 ^ 2) in
    let iyy := (1 / 12) * mass * (vget size I0 ^ 2 + vget size I2 ^ 2) in
    let izz := (1 / 12) * mass * (vget size I0 ^ 2 + vget size I1 ^ 2) in
    let inertia := diag (ixx, iyy, izz) in
    (mesh, [InvalidVolume], (com, inertia))
  else (mesh, [], (com, inertia)).

Definition inertia_to_urdf (inertia : mat3) : R * R * R * R * R * R :=
  (mget inertia I0 I0, mget inertia I0 I1, mget inertia I0 I2,
   mget inertia I1 I1, mget inertia I1 I2, mget inertia I2 I2).

Definition validate_inertia (name : string) (ixx iyy izz : R)
  : list warning * bool :=
  let st : list warning * bool := ([], true) in
  let eps := 1e-10 in
  let st :=
    if Rlt_dec (ixx + iyy) (izz - eps)
    then (fst st ++ [Warning name XY_lt_Z ixx iyy izz], false) else st in
  let st :=
    if Rlt_dec (iyy + izz) (ixx - eps)
    then (fst st ++ [Warning name YZ_lt_X iyy izz ixx], false) else st in
  let st :=
    if Rlt_dec (izz + ixx) (iyy - eps)
    then (fst st ++ [Warning name ZX_lt_Y izz ixx iyy], false) else st in
  st.

(** One value of the [results] dictionary of [process_stl_files]. *)
Record entry : Type := Entry {
  e_mass : R;
  e_com : vec3;
  e_inertia_full : mat3;
  e_principal_inertia : vec3;
  e_rotation_matrix : mat3;
  e_quat : quat_wxyz
}.

(** The default mass table of the script, [LINK_MASSES]. *)
Definition LINK_MASSES : list (string * R) :=
  [ ("pelvis", 3.34);
    ("left_hip_pitch_link", 0.91);
    ("left_hip_roll_link", 0.79);
    ("left_hip_yaw_link", 1.822);
    ("left_knee_link", 1.138);
    ("left_ankle_pitch_link", 0.23);
    ("left_ankle_roll_link", 0.15);
    ("right_hip_pitch_link", 0.91);
    ("right_hip_roll_link", 0.79);
    ("right_hip_yaw_link", 1.822);
    ("right_knee_link", 1.138);
    ("right_ankle_pitch_link", 0.23);
    ("right_ankle_roll_link", 0.15);
    ("waist_yaw_link", 0.79);
    ("waist_roll_link", 1.56);
    ("waist_pitch_link", 2.01);
    ("left_shoulder_pitch_link", 0.24);
    ("left_shoulder_roll_link", 0.92);
    ("left_shoulder_yaw_link", 0.625);
    ("left_elbow_link", 0.552);
    ("left_wrist_roll_link", 0.508);
    ("left_wrist_yaw_link", 0.37);
    ("left_wrist_pitch_link", 0.308);
    ("right_shoulder_pitch_link", 0.24);
    ("right_shoulder_roll_link", 0.92);
    ("right_shoulder_yaw_link", 0.625);
    ("right_elbow_link", 0.552);
    ("right_wrist_roll_link", 0.508);
    ("right_wrist_yaw_link", 0.37);
    ("right_wrist_pitch_link", 0.308);
    ("neck_yaw_link", 0.4);
    ("neck_roll_link", 0.026);
    ("neck_pitch_link", 0.6) ].

Section WithEigh.

(** [np.linalg.eigh] on a 3x3 array: eigenvalues and the matrix whose
    columns are the eigenvectors.  What LAPACK returns is data here;
    its contract is [eigh_contract] below. *)
Variable eigh : mat3 -> vec3 * mat3.

Definition diagonalize_inertia (inertia : mat3)
  : vec3 * mat3 * quat_wxyz :=
  let '(eigenvalues, eigenvectors) := eigh inertia in
  let eigenvectors :=
    if Rlt_dec (det eigenvectors) 0 then negate_col0 eigenvectors
    else eigenvectors in
  let idx := argsort eigenvalues in
  let principal_inertia := take eigenvalues idx in
  let rotation_matrix := take_cols eigenvectors idx in
  let '(qx, qy, qz, qw) := Rotation.from_matrix rotation_matrix in
  let quat := (qw, qx, qy, qz) in
  (principal_inertia, rotation_matrix, quat).

(** [load_stl] on the outcome of [trimesh.load] for the file of one
    link. *)
Definition load_stl (link_name : string) (loaded : result Trimesh.mesh)
  : list line * result Trimesh.mesh :=
  match loaded with
  | Raise e => ([], Raise e)
  | Ok mesh =>
      if negb (Trimesh.is_watertight mesh)
      then ([NotWatertight link_name], Ok mesh)
      else ([], Ok mesh)
  end.

(** The variables the loop of [process_stl_files] updates: the
    [results] dictionary, what was printed, and the mesh objects as
    the loop left them. *)
Record loop_state : Type := LoopState {
  results : list (string * entry);
  stdout : list line;
  meshes : list (string * Trimesh.mesh)
}.

Definition loop_init : loop_state := LoopState [] [] [].

(** The body of the loop of [process_stl_files] for one file, given by
    its stem and by what [trimesh.load] does on it.  What was printed
    before an exception stays printed. *)
Definition loop_body (masses : list (string * R)) (link_name : string)
    (loaded : result Trimesh.mesh) (st : loop_state)
  : loop_state * option exn :=
  let out := stdout st ++ [Processing link_name] in
  let mass :=
    match dict_get masses link_name with
    | Some m => m
    | None => 1.0
    end in
  let out :=
    match dict_get masses link_name with
    | Some _ => out
    | None => out ++ [MassNotFound link_name]
    end in
  let '(printed, r) := load_stl link_name loaded in
  let out := out ++ printed in
  match r with
  | Raise e => (LoopState (results st) out (meshes st), Some e)
  | Ok mesh =>
      let '(mesh, printed, (com, inertia)) :=
        compute_inertia_from_mesh mesh mass in
      let out := out ++ printed in
      let '(principal_inertia, rot_matrix, quat) :=
        diagonalize_inertia inertia in
      let '(warnings, _) :=
        validate_inertia link_name (vget principal_inertia I0)
          (vget principal_inertia I1) (vget principal_inertia I2) in
      let out := out ++ map Triangle warnings in
      let results :=
        dict_set (results st) link_name
          (Entry mass com inertia principal_inertia rot_matrix quat) in
      let out := out ++ [Summary link_name mass com principal_inertia] in
      (LoopState results out (meshes st ++ [(link_name, mesh)]), None)
  end.

(** The loop over the sorted [.stl] files of the directory.  No exception
    is caught. *)
Fixpoint process_loop (masses : list (string * R))
    (stl_files : list (string * result Trimesh.mesh)) (st : loop_state)
  : loop_state * option exn :=
  match stl_files with
  | [] => (st, None)
  | (link_name, loaded) :: rest =>
      match loop_body masses link_name loaded st with
      | (st1, Some e) => (st1, Some e)
      | (st1, None) => process_loop masses rest st1
      end
  end.

Definition process_stl_files
    (stl_files : list (string * result Trimesh.mesh))
    (masses : option (list (string * R)))
  : list line * result (list (string * entry)) :=
  let masses :=
    match masses with
    | None => LINK_MASSES
    | Some m => m
    end in
  match process_loop masses stl_files loop_init with
  | (st, None) => (stdout st, Ok (results st))
  | (st, Some e) => (stdout st, Raise e)
  end.

End WithEigh.

(** [np.allclose(a, b, atol=atol)] on two arrays of four numbers, with
    numpy's default [rtol = 1e-05]: every entry has
    [|a - b| <= atol + rtol * |b|]. *)
Definition allclose (a b : quat_wxyz) (atol : R) : bool :=
  let close (x y : R) : bool :=
    if Rle_dec (Rabs (x - y)) (atol + 1e-05 * Rabs y) then true else false in
  let '(a0, a1, a2, a3) := a in
  let '(b0, b1, b2, b3) := b in
  close a0 b0 && close a1 b1 && close a2 b2 && close a3 b3.

(** [np.abs(quat)] *)
Definition abs4 (q : quat_wxyz) : quat_wxyz :=
  let '(w, x, y, z) := q in (Rabs w, Rabs x, Rabs y, Rabs z).

(** The lines [output_xml_format] prints for one body: the comment with
    the name, the opening of the [inertial] element with or without its
    [quat] attribute, and the [diaginertia] attribute.  The numbers are
    kept as numbers; their formatting is not modelled. *)
Inductive xml_line : Type :=
| XmlComment (name : string)
| XmlInertial (pos : vec3) (quat : option quat_wxyz) (mass : R)
| XmlDiaginertia (diag : vec3).

(** The loop of [output_xml_format], without the banner it prints
    first. *)
Definition output_xml_format (results : list (string * entry))
  : list xml_line :=
  flat_map
    (fun '(name, data) =>
       let com := e_com data in
       let diag := e_principal_inertia data in
       let quat := e_quat data in
       let quat_identity :=
         allclose (abs4 quat) (1, 0, 0, 0) 1e-4
         || allclose quat (1, 0, 0, 0) 1e-4 in
       [ XmlComment name;
         if quat_identity then XmlInertial com None (e_mass data)
         else XmlInertial com (Some quat) (e_mass data);
         XmlDiaginertia diag ])
    results.

(** The contract of [np.linalg.eigh] at one symmetric input: the
    eigenvalues come in ascending order, the eigenvector matrix is
    orthogonal, and column [j] is an eigenvector for eigenvalue [j]. *)
Definition eigh_contract (eigh : mat3 -> vec3 * mat3) (A : mat3) : Prop :=
  let '(w, V) := eigh A in
  ascending w /\ orthogonal V /\ matmul A V = matmul V (diag w).

End CalculateInertiaFromStl.

(** ** The same expressions on binary64 numbers *)

(** The arithmetic of the two scripts on the numbers Python and numpy
    compute with.  Every operation is rounded to the nearest binary64
    number; [x ** 2] is the square rounded once, and the three products
    of a matrix entry are summed from left to right.  The shape tags,
    lists and dictionaries play no part here, so only the arithmetic
    functions are repeated. *)

Module Binary64.
Local Open Scope float_scope.

Definition vec3 : Type := (float * float * float)%type.
Definition mat3 : Type := (vec3 * vec3 * vec3)%type.
Definition quat : Type := (float * float * float * float)%type.

Definition vget (v : vec3) (i : idx3) : float :=
  let '(a, b, c) := v in
  match i with I0 => a | I1 => b | I2 => c end.

Definition mrow (M : mat3) (i : idx3) : vec3 :=
  let '(r0, r1, r2) := M in
  match i with I0 => r0 | I1 => r1 | I2 => r2 end.

Definition mget (M : mat3) (i j : idx3) : float := vget (mrow M i) j.

Definition mcol (M : mat3) (j : idx3) : vec3 :=
  (mget M I0 j, mget M I1 j, mget M I2 j).

Definition diag (v : vec3) : mat3 :=
  let '(a, b, c) := v in
  ((a, 0, 0), (0, b, 0), (0, 0, c)).

Definition transpose (M : mat3) : mat3 :=
  (mcol M I0, mcol M I1, mcol M I2).

Definition dot (u v : vec3) : float :=
  let '(a, b, c) := u in
  let '(x, y, z) := v in
  a * x + b * y + c * z.

Definition matmul (A B : mat3) : mat3 :=
  let row (i : idx3) :=
    (dot (mrow A i) (mcol B I0),
     dot (mrow A i) (mcol B I1),
     dot (mrow A i) (mcol B I2)) in
  (row I0, row I1, row I2).

(** [x ** 2] *)
Definition square (x : float) : float := x * x.

Module Rotation.

Definition from_quat (q : quat) : result quat :=
  let '(x, y, z, w) := q in
  let n := PrimFloat.sqrt (x * x + y * y + z * z + w * w) in
  if n =? 0 then Raise ZeroNormQuaternion
  else Ok (x / n, y / n, z / n, w / n).

Definition as_matrix (q : quat) : mat3 :=
  let '(x, y, z, w) := q in
  let x2 := x * x in
  let y2 := y * y in
  let z2 := z * z in
  let w2 := w * w in
  let xy := x * y in
  let zw := z * w in
  let xz := x * z in
  let yw := y * w in
  let yz := y * z in
  let xw := x * w in
  ((x2 - y2 - z2 + w2, 2 * (xy - zw), 2 * (xz + yw)),
   (2 * (xy + zw), - x2 + y2 - z2 + w2, 2 * (yz - xw)),
   (2 * (xz - yw), 2 * (yz + xw), - x2 - y2 + z2 + w2)).

End Rotation.

Module CalculateInertia.

Definition quat_to_rotation_matrix (quat : quat) : result mat3 :=
  let '(w, x, y, z) := quat in
  r <- Rotation.from_quat (x, y, z, w) ;;
  Ok (Rotation.as_matrix r).

Definition rotate_inertia (diag_inertia : vec3) (quat : quat)
  : result mat3 :=
  let I_principal := diag diag_inertia in
  R <- quat_to_rotation_matrix quat ;;
  let I_body := matmul (matmul R I_principal) (transpose R) in
  Ok I_body.

Definition inertia_tensor_to_urdf (I : mat3)
  : float * float * float * float * float * float :=
  let ixx := mget I I0 I0 in
  let iyy := mget I I1 I1 in
  let izz := mget I I2 I2 in
  let ixy := mget I I0 I1 in
  let ixz := mget I I0 I2 in
  let iyz := mget I I1 I2 in
  (ixx, ixy, ixz, iyy, iyz, izz).

Definition inertia_box (mass lx ly lz : float) : vec3 :=
  let Ixx := (1 / 12) * mass * (square ly + square lz) in
  let Iyy := (1 / 12) * mass * (square lx + square lz) in
  let Izz := (1 / 12) * mass * (square lx + square ly) in
  (Ixx, Iyy, Izz).

Definition inertia_cylinder_z (mass radius height : float) : vec3 :=
  let Iyy := (1 / 12) * mass * (3 * square radius + square height) in
  let Ixx := Iyy in
  let Izz := (1 / 2) * mass * square radius in
  (Ixx, Iyy, Izz).

Definition inertia_cylinder_y (mass radius height : float) : vec3 :=
  let Iyy := (1 / 2) * mass * square radius in
  let Izz := (1 / 12) * mass * (3 * square radius + square height) in
  let Ixx := Izz in
  (Ixx, Iyy, Izz).

Definition inertia_sphere (mass radius : float) : vec3 :=
  let I := (2 / 5) * mass * square radius in
  (I, I, I).

(** The lines printed, each by the inequality it reports, and the
    flag. *)
Definition validate_inertia (ixx iyy izz : float) : list violated * bool :=
  let st : list violated * bool := ([], true) in
  let st := if ixx + iyy <? izz then (fst st ++ [XY_lt_Z], false) else st in
  let st := if iyy + izz <? ixx then (fst st ++ [YZ_lt_X], false) else st in
  let st := if izz + ixx <? iyy then (fst st ++ [ZX_lt_Y], false) else st in
  st.

End CalculateInertia.

Module CalculateInertiaFromStl.

Definition validate_inertia (ixx iyy izz : float) : list violated * bool :=
  let st : list violated * bool := ([], true) in
  let eps := 1e-10 in
  let st :=
    if ixx + iyy <? izz - eps then (fst st ++ [XY_lt_Z], false) else st in
  let st :=
    if iyy + izz <? ixx - eps then (fst st ++ [YZ_lt_X], false) else st in
  let st :=
    if izz + ixx <? iyy - eps then (fst st ++ [ZX_lt_Y], false) else st in
  st.

End CalculateInertiaFromStl.

(** The symmetric tensor that six URDF components stand for. *)
Definition tensor_of_urdf
    (c : float * float * float * float * float * float) : mat3 :=
  let '(ixx, ixy, ixz, iyy, iyz, izz) := c in
  ((ixx, ixy, ixz), (ixy, iyy, iyz), (ixz, iyz, izz)).

End Binary64.

(** ** Vocabulary of the specification *)

(** The three pairwise triangle inequalities on principal moments. *)
Definition triangle_inequalities (v : vec3) : Prop :=
  let '(ixx, iyy, izz) := v in
  ixx + iyy >= izz /\ iyy + izz >= ixx /\ izz + ixx >= iyy.

(** The same three inequalities, each relaxed by an absolute tolerance. *)
Definition within_tolerance (eps ixx iyy izz : R) : Prop :=
  ixx + iyy >= izz - eps /\ iyy + izz >= ixx - eps /\ izz + ixx >= iyy - eps.

(** The diagnostics a checker with tolerance [eps] owes: one line per
    inequality that fails by more than [eps], in the order the
    inequalities are listed. *)
Definition diagnostics (eps : R) (name : string) (ixx iyy izz : R)
  : list warning :=
  (if Rlt_dec (ixx + iyy) (izz - eps)
   then [Warning name XY_lt_Z ixx iyy izz] else []) ++
  (if Rlt_dec (iyy + izz) (ixx - eps)
   then [Warning name YZ_lt_X iyy izz ixx] else []) ++
  (if Rlt_dec (izz + ixx) (iyy - eps)
   then [Warning name ZX_lt_Y izz ixx iyy] else []).

(** The symmetric tensor that six URDF components stand for. *)
Definition tensor_of_urdf (c : R * R * R * R * R * R) : mat3 :=
  let '(ixx, ixy, ixz, iyy, iyz, izz) := c in
  ((ixx, ixy, ixz), (ixy, iyy, iyz), (ixz, iyz, izz)).

(** A proper rotation: orthogonal, with determinant one. *)
Definition rotation (M : mat3) : Prop := orthogonal M /\ det M = 1.

(** Centre and edge lengths of an axis-aligned bounding box. *)
Definition box_center (bounds : vec3 * vec3) : vec3 :=
  let '((x0, y0, z0), (x1, y1, z1)) := bounds in
  ((x0 + x1) / 2, (y0 + y1) / 2, (z0 + z1) / 2).

Definition box_extents (bounds : vec3 * vec3) : vec3 :=
  let '((x0, y0, z0), (x1, y1, z1)) := bounds in
  (x1 - x0, y1 - y0, z1 - z0).

(** A mesh of zero volume whose bounding box is the cube [-1, 1]^3. *)
Definition flat_cube_mesh : Trimesh.mesh :=
  Trimesh.Mesh 0 (0, 0, 0) ((0, 0, 0), (0, 0, 0), (0, 0, 0))
    ((-1, -1, -1), (1, 1, 1)) false 1.

(** A watertight mesh of volume 2 at the default density 1. *)
Definition solid_mesh : Trimesh.mesh :=
  Trimesh.Mesh 2 (0, 0, 0) ((1, 0, 0), (0, 1, 0), (0, 0, 1))
    ((-1, -1, -1), (1, 1, 1)) true 1.

(** The shape tags the primitive calculator knows. *)
Definition supported (shape : string) : Prop :=
  shape = "box" \/ shape = "cylinder_y" \/ shape = "cylinder_z" \/
  shape = "sphere".

(** How many dimensions the table gives for a shape: three edge lengths
    for a box, radius and height for a cylinder, the radius for a
    sphere. *)
Definition dims_needed (shape : string) : nat :=
  if String.eqb shape "box" then 3
  else if String.eqb shape "cylinder_z" then 2
  else if String.eqb shape "cylinder_y" then 2
  else if String.eqb shape "sphere" then 1
  else 0.

(** A table entry that the calculator can work on: enough dimensions
    for its shape, each of them with a square in the range of binary64,
    and, when an orientation is given, four components whose norm does
    not underflow to zero. *)
Definition well_formed (l : CalculateInertia.link_data) : Prop :=
  (dims_needed (CalculateInertia.shape l)
   <= List.length (CalculateInertia.dims l))%nat /\
  (forall d,
      In d (firstn (dims_needed (CalculateInertia.shape l))
              (CalculateInertia.dims l)) ->
      square_overflows d = false) /\
  match CalculateInertia.quat l with
  | None => True
  | Some q =>
      exists w x y z,
        q = [w; x; y; z] /\ Rotation.zero_norm (x, y, z, w) = false
  end.

(** The centre of mass of an entry has its three coordinates. *)
Definition com_complete (l : CalculateInertia.link_data) : Prop :=
  (3 <= List.length (CalculateInertia.com l))%nat.

(** Two bodies for the examples: a cube without orientation and a box
    turned by a unit quaternion. *)
Definition unit_cube : CalculateInertia.link_data :=
  CalculateInertia.LinkData 1 "box" [2; 2; 2] [0; 0; 0] None.

Definition turned_box : CalculateInertia.link_data :=
  CalculateInertia.LinkData 1 "box" [1; 2; 3] [0; 0; 0]
    (Some [0.5; 0.5; 0.5; 0.5]).

(** A body whose shape tag the calculator does not know. *)
Definition cone : CalculateInertia.link_data :=
  CalculateInertia.LinkData 1 "cone" [1; 2] [0; 0; 0] None.

(** The [results] value that [main] stores for a body whose computation
    returned [r]. *)
Definition entry_of (data : CalculateInertia.link_data)
    (r : R * R * R * option mat3 * option (list R))
  : CalculateInertia.entry :=
  let '(ixx, iyy, izz, I_full, quat) := r in
  CalculateInertia.Entry (CalculateInertia.mass data)
    (CalculateInertia.com data) (ixx, iyy, izz) I_full quat.

(** The [results] value that [process_stl_files] stores for a link whose
    file loaded as [mesh]. *)
Definition stl_entry_of (eigh : mat3 -> vec3 * mat3)
    (masses : list (string * R)) (link_name : string) (mesh : Trimesh.mesh)
  : CalculateInertiaFromStl.entry :=
  let mass :=
    match dict_get masses link_name with
    | Some m => m
    | None => 1.0
    end in
  let '(_, _, (com, inertia)) :=
    CalculateInertiaFromStl.compute_inertia_from_mesh mesh mass in
  let '(principal_inertia, rot_matrix, quat) :=
    CalculateInertiaFromStl.diagonalize_inertia eigh inertia in
  CalculateInertiaFromStl.Entry mass com inertia principal_inertia
    rot_matrix quat.

(** An eigen-solver stand-in for the examples: it is right on diagonal
    matrices whose diagonal is ascending, which is all the examples feed
    it. *)
Definition eigh_of_diagonal (A : mat3) : vec3 * mat3 :=
  ((mget A I0 I0, mget A I1 I1, mget A I2 I2), identity).

(** A batch of two bodies, the first with an unknown shape tag. *)
Definition batch_with_cone : list (string * CalculateInertia.link_data) :=
  [("cone_link", cone); ("cube_link", unit_cube)].

(** A directory of two files, the first unreadable. *)
Definition directory_with_bad_file : list (string * result Trimesh.mesh) :=
  [("broken", Raise (LoadError "broken.stl")); ("cube", Ok flat_cube_mesh)].

(** An eigen-solver stand-in that returns a left-handed eigenvector
    matrix, the reflection diag(-1, 1, 1), on diagonal input. *)
Definition eigh_reflected (A : mat3) : vec3 * mat3 :=
  ((mget A I0 I0, mget A I1 I1, mget A I2 I2),
   ((-1, 0, 0), (0, 1, 0), (0, 0, 1))).

(** The quaternion [k * q], entry by entry. *)
Definition quat_scale (k : R) (q : quat_wxyz) : quat_wxyz :=
  let '(w, x, y, z) := q in (k * w, k * x, k * y, k * z).

(** Quarter turns about the three axes, given as the quaternions
    [1 + i], [1 + j] and [1 + k], which are not normalised. *)
Definition quarter_turn_x : quat_wxyz := (1, 1, 0, 0).
Definition quarter_turn_y : quat_wxyz := (1, 0, 1, 0).
Definition quarter_turn_z : quat_wxyz := (1, 0, 0, 1).

(** A table entry with its [dims] replaced, and with its [quat] key
    removed. *)
Definition with_dims (l : CalculateInertia.link_data) (ds : list R)
  : CalculateInertia.link_data :=
  CalculateInertia.LinkData (CalculateInertia.mass l)
    (CalculateInertia.shape l) ds (CalculateInertia.com l)
    (CalculateInertia.quat l).

Definition without_quat (l : CalculateInertia.link_data)
  : CalculateInertia.link_data :=
  CalculateInertia.LinkData (CalculateInertia.mass l)
    (CalculateInertia.shape l) (CalculateInertia.dims l)
    (CalculateInertia.com l) None.

(** The entries the loop of [main] has recorded when it stops: one per
    body, in table order, up to the first body whose computation
    raises. *)
Fixpoint processed (links : list (string * CalculateInertia.link_data))
  : list (string * CalculateInertia.entry) :=
  match links with
  | [] => []
  | (name, data) :: rest =>
      match CalculateInertia.calculate_inertia data with
      | Ok r => (name, entry_of data r) :: processed rest
      | Raise _ => []
      end
  end.

(** A box of negative mass: it computes, and fails the triangle check. *)
Definition antimatter_box : CalculateInertia.link_data :=
  CalculateInertia.LinkData (-1) "box" [1; 2; 3] [0; 0; 0] None.

(** A quaternion that is the identity or its negative up to the
    tolerances of [output_xml_format]. *)
Definition near_identity (q : quat_wxyz) : Prop :=
  let '(w, x, y, z) := q in
  Rabs (Rabs w - 1) <= 1e-4 + 1e-05 /\
  Rabs x <= 1e-4 /\ Rabs y <= 1e-4 /\ Rabs z <= 1e-4.

(** The mass [process_stl_files] uses for a link: the table value, or
    1 kg when the table has no such key. *)
Definition mass_or_default (masses : list (string * R)) (link_name : string)
  : R :=
  match dict_get masses link_name with
  | Some m => m
  | None => 1.0
  end.

(** A body whose centre of mass lacks a coordinate. *)
Definition flat_com_cube : CalculateInertia.link_data :=
  CalculateInertia.LinkData 1 "box" [2; 2; 2] [0; 0] None.

(** A body whose orientation is the zero quaternion. *)
Definition unoriented_box : CalculateInertia.link_data :=
  CalculateInertia.LinkData 1 "box" [1; 2; 3] [0; 0; 0] (Some [0; 0; 0; 0]).

(** A mesh with a hole: positive volume, not watertight. *)
Definition open_mesh : Trimesh.mesh :=
  Trimesh.Mesh 2 (0, 0, 0) ((1, 0, 0), (0, 1, 0), (0, 0, 1))
    ((-1, -1, -1), (1, 1, 1)) false 1.

(** The two halves of [calculate_inertia], named for the proofs: the
    dispatch on the shape tag, with the formula it selects, and the
    orientation step. *)
Definition dispatch (mass : R) (shape : string) (dims : list R)
  : result vec3 :=
  if String.eqb shape "box" then
    d0 <- index dims 0 ;; d1 <- index dims 1 ;; d2 <- index dims 2 ;;
    _ <- CalculateInertia.power_check [d0; d1; d2] ;;
    Ok (CalculateInertia.inertia_box mass d0 d1 d2)
  else if String.eqb shape "cylinder_z" then
    d0 <- index dims 0 ;; d1 <- index dims 1 ;;
    _ <- CalculateInertia.power_check [d0; d1] ;;
    Ok (CalculateInertia.inertia_cylinder_z mass d0 d1)
  else if String.eqb shape "cylinder_y" then
    d0 <- index dims 0 ;; d1 <- index dims 1 ;;
    _ <- CalculateInertia.power_check [d0; d1] ;;
    Ok (CalculateInertia.inertia_cylinder_y mass d0 d1)
  else if String.eqb shape "sphere" then
    d0 <- index dims 0 ;;
    _ <- CalculateInertia.power_check [d0] ;;
    Ok (CalculateInertia.inertia_sphere mass d0)
  else Raise (UnknownShape shape).

Definition orient (diag : vec3) (quat : option (list R))
  : result (R * R * R * option mat3 * option (list R)) :=
  match quat with
  | Some quat =>
      q <- CalculateInertia.unpack4 quat ;;
      I_full <- CalculateInertia.rotate_inertia diag q ;;
      Ok (vget diag I0, vget diag I1, vget diag I2, Some I_full, Some quat)
  | None =>
      Ok (vget diag I0, vget diag I1, vget diag I2, None, None)
  end.

(** The moments of a disc: a cylinder about Z of mass 5 and radius 3
    with a height of one nanometre. *)
Definition disc_moments : Binary64.vec3 :=
  Binary64.CalculateInertia.inertia_cylinder_z 5 3 1e-9.

(** A box whose [dims] list lacks the third edge length, a box with an
    edge of 1e200, and a box whose orientation is the quaternion
    [1e-200, 0, 0, 0]. *)
Definition short_box : CalculateInertia.link_data :=
  CalculateInertia.LinkData 1 "box" [1; 2] [0; 0; 0] None.

Definition huge_box : CalculateInertia.link_data :=
  CalculateInertia.LinkData 1 "box" [1e200; 1; 1] [0; 0; 0] None.

Definition faint_box : CalculateInertia.link_data :=
  CalculateInertia.LinkData 1 "box" [1; 2; 3] [0; 0; 0]
    (Some [1e-200; 0; 0; 0]).

(** * Properties *)

(** ** Tactics *)

(** Decide every real comparison in sight, closing the impossible cases
    by linear arithmetic. *)
Ltac decide_reals :=
  repeat match goal with
  | |- context [Rlt_dec ?a ?b] =>
      destruct (Rlt_dec a b); cbn [fst snd] in *; try lra
  | |- context [Rle_dec ?a ?b] =>
      destruct (Rle_dec a b); cbn [fst snd] in *; try lra
  | H : context [Rlt_dec ?a ?b] |- _ =>
      destruct (Rlt_dec a b); cbn [fst snd] in *; try lra
  | H : context [Rle_dec ?a ?b] |- _ =>
      destruct (Rle_dec a b); cbn [fst snd] in *; try lra
  end.

(** Reduce an equation between tuples to the equations of the entries. *)
Ltac tuple_eq :=
  repeat match goal with
  | |- (_, _) = (_, _) => apply f_equal2
  end.

(** Unfold the array operations down to arithmetic on the entries. *)
Ltac linalg :=
  cbv beta iota zeta delta
    [matmul transpose mcol mget mrow vget dot diag identity det trace
     mscale take take_cols vadd vsub vdiv Rotation.as_matrix].
Tactic Notation "linalg" "in" hyp(H) :=
  cbv beta iota zeta delta
    [matmul transpose mcol mget mrow vget dot diag identity det trace
     mscale take take_cols vadd vsub vdiv Rotation.as_matrix] in H.

(** Decide which of the four shape tags a string is, or that it is
    none of them. *)
Ltac case_shape s :=
  destruct (String.eqb_spec s "box") as [-> | ?];
  [| destruct (String.eqb_spec s "cylinder_z") as [-> | ?];
     [| destruct (String.eqb_spec s "cylinder_y") as [-> | ?];
        [| destruct (String.eqb_spec s "sphere") as [-> | ?]]]].

(** Show that the dimensions of a list are of ordinary size. *)
Ltac dims_fit :=
  repeat (apply Forall_cons; [first [assumption | lra] |]);
  apply Forall_nil.

(** Split a vector or matrix variable into its entries. *)
Ltac split_vec v := destruct v as [[? ?] ?].
Ltac split_mat M :=
  let r0 := fresh "r" in
  let r1 := fresh "r" in
  let r2 := fresh "r" in
  destruct M as [[r0 r1] r2]; split_vec r0; split_vec r1; split_vec r2.

(** ** Primitive shapes *)

Section Primitives.
  Import CalculateInertia.

(** C1. The four primitive-shape calculators return the closed-form
    principal moments: box [(m(ly²+lz²)/12, m(lx²+lz²)/12, m(lx²+ly²)/12)],
    cylinder about Z [(m(3r²+h²)/12, m(3r²+h²)/12, mr²/2)], cylinder about
    Y the same with the axial term [mr²/2] in the Iyy slot, sphere
    [2mr²/5] three times; a sphere of mass 1 and radius 1 gives 0.4 on all
    three axes.  It holds for every mass and every dimension, positive or
    not. *)
Theorem primitive_closed_forms :
  forall m lx ly lz r h : R,
    inertia_box m lx ly lz =
      (m * (ly * ly + lz * lz) / 12,
       m * (lx * lx + lz * lz) / 12,
       m * (lx * lx + ly * ly) / 12) /\
    inertia_cylinder_z m r h =
      (m * (3 * (r * r) + h * h) / 12,
       m * (3 * (r * r) + h * h) / 12,
       m * (r * r) / 2) /\
    inertia_cylinder_y m r h =
      (m * (3 * (r * r) + h * h) / 12,
       m * (r * r) / 2,
       m * (3 * (r * r) + h * h) / 12) /\
    inertia_sphere m r =
      (2 * m * (r * r) / 5, 2 * m * (r * r) / 5, 2 * m * (r * r) / 5) /\
    inertia_sphere 1 1 = (0.4, 0.4, 0.4).
Proof.
  intros m lx ly lz r h.
  unfold inertia_box, inertia_cylinder_z, inertia_cylinder_y, inertia_sphere.
  repeat split; tuple_eq; lra.
Qed.

Example inertia_box_cube :
  inertia_box 1 2 2 2 = (2 / 3, 2 / 3, 2 / 3).
Proof. unfold inertia_box. tuple_eq; lra. Qed.

Example inertia_cylinder_z_rod :
  inertia_cylinder_z 12 1 3 = (12, 12, 6).
Proof. unfold inertia_cylinder_z. tuple_eq; lra. Qed.

Example inertia_cylinder_y_rod :
  inertia_cylinder_y 12 1 3 = (12, 6, 12).
Proof. unfold inertia_cylinder_y. tuple_eq; lra. Qed.

(** Doubling the mass doubles the three moments of every shape. *)
Lemma primitive_mass_scaling :
  forall m lx ly lz r h,
    inertia_box (2 * m) lx ly lz
      = vdiv (inertia_box m lx ly lz) (1 / 2) /\
    inertia_cylinder_z (2 * m) r h
      = vdiv (inertia_cylinder_z m r h) (1 / 2) /\
    inertia_cylinder_y (2 * m) r h
      = vdiv (inertia_cylinder_y m r h) (1 / 2) /\
    inertia_sphere (2 * m) r = vdiv (inertia_sphere m r) (1 / 2).
Proof.
  intros.
  unfold inertia_box, inertia_cylinder_z, inertia_cylinder_y,
    inertia_sphere, vdiv.
  repeat split; tuple_eq; field.
Qed.

(** The checker of the primitive path is the specified one at tolerance
    zero. *)
Lemma validate_inertia_exact :
  forall name ixx iyy izz,
    validate_inertia name ixx iyy izz =
      (diagnostics 0 name ixx iyy izz,
       if Rlt_dec (ixx + iyy) izz then false
       else if Rlt_dec (iyy + izz) ixx then false
       else if Rlt_dec (izz + ixx) iyy then false
       else true).
Proof.
  intros name ixx iyy izz.
  unfold validate_inertia, diagnostics.
  destruct (Rlt_dec (ixx + iyy) izz), (Rlt_dec (iyy + izz) ixx),
    (Rlt_dec (izz + ixx) iyy); decide_reals; reflexivity.
Qed.

Lemma validate_inertia_accepts :
  forall name ixx iyy izz,
    triangle_inequalities (ixx, iyy, izz) ->
    validate_inertia name ixx iyy izz = ([], true).
Proof.
  intros name ixx iyy izz (H1 & H2 & H3).
  unfold validate_inertia. decide_reals. reflexivity.
Qed.

Lemma box_triangle :
  forall m lx ly lz, 0 <= m -> triangle_inequalities (inertia_box m lx ly lz).
Proof.
  intros m lx ly lz Hm. unfold inertia_box, triangle_inequalities.
  pose proof (pow2_ge_0 lx). pose proof (pow2_ge_0 ly).
  pose proof (pow2_ge_0 lz).
  repeat split; nra.
Qed.

Lemma cylinder_z_triangle :
  forall m r h, 0 <= m -> triangle_inequalities (inertia_cylinder_z m r h).
Proof.
  intros m r h Hm. unfold inertia_cylinder_z, triangle_inequalities.
  pose proof (pow2_ge_0 r). pose proof (pow2_ge_0 h).
  repeat split; nra.
Qed.

Lemma cylinder_y_triangle :
  forall m r h, 0 <= m -> triangle_inequalities (inertia_cylinder_y m r h).
Proof.
  intros m r h Hm. unfold inertia_cylinder_y, triangle_inequalities.
  pose proof (pow2_ge_0 r). pose proof (pow2_ge_0 h).
  repeat split; nra.
Qed.

Lemma sphere_triangle :
  forall m r, 0 <= m -> triangle_inequalities (inertia_sphere m r).
Proof.
  intros m r Hm. unfold inertia_sphere, triangle_inequalities.
  pose proof (pow2_ge_0 r).
  repeat split; nra.
Qed.

(** C8, as stated, fails: the moments are computed in binary64, and
    rounding can take them across an inequality that holds for the exact
    values.  [inertia_cylinder_z(5, 3, 1e-9)] returns
    (11.249999999999998, 11.249999999999998, 22.5): the sum of the first
    two is 22.499999999999996, below the third, and the checker of the
    same script prints the warning for Ixx + Iyy < Izz. *)
Lemma cylinder_z_rounding_breaks_triangle :
  disc_moments
  = (11.249999999999998, 11.249999999999998, 22.5)%float /\
  (11.249999999999998 + 11.249999999999998)%float = 22.499999999999996%float /\
  PrimFloat.ltb 22.499999999999996 22.5 = true /\
  (let '(ixx, iyy, izz) := disc_moments in
   Binary64.CalculateInertia.validate_inertia ixx iyy izz)
  = ([XY_lt_Z], false).
Proof. repeat split; vm_compute; reflexivity. Qed.

(** C8, amended.  For positive mass and positive dimensions the four
    closed forms, evaluated in exact arithmetic, satisfy the three
    triangle inequalities with no tolerance.  The binary64 values that
    the functions return satisfy them up to rounding only. *)
Theorem primitive_formulas_satisfy_triangle_inequalities :
  forall m lx ly lz r h : R,
    0 < m -> 0 < lx -> 0 < ly -> 0 < lz -> 0 < r -> 0 < h ->
    triangle_inequalities (inertia_box m lx ly lz) /\
    triangle_inequalities (inertia_cylinder_z m r h) /\
    triangle_inequalities (inertia_cylinder_y m r h) /\
    triangle_inequalities (inertia_sphere m r).
Proof.
  intros m lx ly lz r h Hm _ _ _ _ _.
  assert (Hm' : 0 <= m) by lra.
  split; [apply box_triangle; exact Hm' |].
  split; [apply cylinder_z_triangle; exact Hm' |].
  split; [apply cylinder_y_triangle; exact Hm' |].
  apply sphere_triangle; exact Hm'.
Qed.

Lemma primitive_formulas_satisfy_triangle_inequalities_witness :
  triangle_inequalities (inertia_box 1 2 2 2) /\
  triangle_inequalities (inertia_cylinder_z 1 1 2) /\
  triangle_inequalities (inertia_cylinder_y 1 1 2) /\
  triangle_inequalities (inertia_sphere 1 1).
Proof.
  apply (primitive_formulas_satisfy_triangle_inequalities 1 2 2 2 1 2); lra.
Defined.

End Primitives.

(** ** Validity checkers *)

(** The checker of the mesh path is the specified one at tolerance
    [1e-10]. *)
Lemma validate_inertia_stl_tolerant :
  forall name ixx iyy izz,
    CalculateInertiaFromStl.validate_inertia name ixx iyy izz =
      (diagnostics 1e-10 name ixx iyy izz,
       if Rlt_dec (ixx + iyy) (izz - 1e-10) then false
       else if Rlt_dec (iyy + izz) (ixx - 1e-10) then false
       else if Rlt_dec (izz + ixx) (iyy - 1e-10) then false
       else true).
Proof.
  intros name ixx iyy izz.
  unfold CalculateInertiaFromStl.validate_inertia, diagnostics.
  destruct (Rlt_dec (ixx + iyy) (izz - 1e-10)),
    (Rlt_dec (iyy + izz) (ixx - 1e-10)),
    (Rlt_dec (izz + ixx) (iyy - 1e-10)); reflexivity.
Qed.

Lemma diagnostics_in :
  forall eps name ixx iyy izz w,
    In w (diagnostics eps name ixx iyy izz) <->
    (w = Warning name XY_lt_Z ixx iyy izz /\ ixx + iyy < izz - eps) \/
    (w = Warning name YZ_lt_X iyy izz ixx /\ iyy + izz < ixx - eps) \/
    (w = Warning name ZX_lt_Y izz ixx iyy /\ izz + ixx < iyy - eps).
Proof.
  intros eps name ixx iyy izz w. unfold diagnostics.
  destruct (Rlt_dec (ixx + iyy) (izz - eps)),
    (Rlt_dec (iyy + izz) (ixx - eps)),
    (Rlt_dec (izz + ixx) (iyy - eps));
    simpl; split; intros H;
    repeat match goal with
    | H : _ \/ _ |- _ => destruct H
    | H : _ /\ _ |- _ => destruct H
    | H : False |- _ => destruct H
    end; subst; auto; try contradiction; tauto.
Qed.

(** The triple (0, 0, 5e-11) is within the tolerance 1e-10 of the
    inequality Ixx + Iyy >= Izz: the checker of calculate_inertia.py
    rejects it with a warning, the checker of calculate_inertia_from_stl.py
    accepts it. *)
Example validate_inertia_tolerance_example :
  within_tolerance 1e-10 0 0 5e-11 /\
  CalculateInertia.validate_inertia "link" 0 0 5e-11
    = ([Warning "link" XY_lt_Z 0 0 5e-11], false) /\
  CalculateInertiaFromStl.validate_inertia "link" 0 0 5e-11 = ([], true).
Proof.
  split; [unfold within_tolerance; lra |].
  unfold CalculateInertia.validate_inertia,
    CalculateInertiaFromStl.validate_inertia.
  split; decide_reals; reflexivity.
Qed.

(** C2.  Both checkers are total functions on binary64 triples that make
    the three tests in the order (Ixx+Iyy, Izz), (Iyy+Izz, Ixx),
    (Izz+Ixx, Iyy), print one warning per test that fails and return
    [true] exactly when none fails.  The checker of
    calculate_inertia_from_stl.py subtracts the tolerance 1e-10 from the
    right-hand side; the checker of calculate_inertia.py has no
    tolerance.  So on the moments of a disc, which miss Ixx + Iyy >= Izz
    by one rounding error, and on (0, 0, 5e-11), the second warns and
    returns [false] where the first is silent and returns [true].  On
    (1, 1, 3) both report Ixx + Iyy < Izz. *)
Theorem validate_inertia_lacks_tolerance :
  (forall ixx iyy izz : float,
      Binary64.CalculateInertia.validate_inertia ixx iyy izz
      = ((if PrimFloat.ltb (ixx + iyy) izz then [XY_lt_Z] else []) ++
         (if PrimFloat.ltb (iyy + izz) ixx then [YZ_lt_X] else []) ++
         (if PrimFloat.ltb (izz + ixx) iyy then [ZX_lt_Y] else []),
         negb (PrimFloat.ltb (ixx + iyy) izz) &&
         negb (PrimFloat.ltb (iyy + izz) ixx) &&
         negb (PrimFloat.ltb (izz + ixx) iyy))%float) /\
  (forall ixx iyy izz : float,
      Binary64.CalculateInertiaFromStl.validate_inertia ixx iyy izz
      = ((if PrimFloat.ltb (ixx + iyy) (izz - 1e-10) then [XY_lt_Z] else []) ++
         (if PrimFloat.ltb (iyy + izz) (ixx - 1e-10) then [YZ_lt_X] else []) ++
         (if PrimFloat.ltb (izz + ixx) (iyy - 1e-10) then [ZX_lt_Y] else []),
         negb (PrimFloat.ltb (ixx + iyy) (izz - 1e-10)) &&
         negb (PrimFloat.ltb (iyy + izz) (ixx - 1e-10)) &&
         negb (PrimFloat.ltb (izz + ixx) (iyy - 1e-10)))%float) /\
  Binary64.CalculateInertia.validate_inertia
    11.249999999999998 11.249999999999998 22.5 = ([XY_lt_Z], false) /\
  Binary64.CalculateInertiaFromStl.validate_inertia
    11.249999999999998 11.249999999999998 22.5 = ([], true) /\
  Binary64.CalculateInertia.validate_inertia 0 0 5e-11
    = ([XY_lt_Z], false) /\
  Binary64.CalculateInertiaFromStl.validate_inertia 0 0 5e-11
    = ([], true) /\
  Binary64.CalculateInertia.validate_inertia 1 1 3 = ([XY_lt_Z], false) /\
  Binary64.CalculateInertiaFromStl.validate_inertia 1 1 3
    = ([XY_lt_Z], false).
Proof.
  split; [| split].
  - intros ixx iyy izz. unfold Binary64.CalculateInertia.validate_inertia.
    destruct (PrimFloat.ltb (ixx + iyy) izz),
      (PrimFloat.ltb (iyy + izz) ixx), (PrimFloat.ltb (izz + ixx) iyy);
      reflexivity.
  - intros ixx iyy izz.
    unfold Binary64.CalculateInertiaFromStl.validate_inertia. cbv zeta.
    destruct (PrimFloat.ltb (ixx + iyy) (izz - 1e-10)),
      (PrimFloat.ltb (iyy + izz) (ixx - 1e-10)),
      (PrimFloat.ltb (izz + ixx) (iyy - 1e-10)); reflexivity.
  - repeat split; vm_compute; reflexivity.
Qed.

(** ** Mesh-based calculator *)

Section MeshCalculator.
  Import CalculateInertiaFromStl.

(** C4. When the volume of the mesh is not positive, the result is the
    centre of the bounding box and the diagonal tensor that the box
    formula of the primitive calculator gives for the edge lengths of the
    bounding box; the fallback is announced by one printed warning.  For
    the bounding box of edge lengths (2, 2, 2) and mass 1 the tensor is
    diag(2/3, 2/3, 2/3). *)
Theorem degenerate_volume_falls_back_to_bounding_box :
  forall (mesh : Trimesh.mesh) (m : R),
    Trimesh.volume mesh <= 0 ->
    let '(_, printed, (com, inertia)) := compute_inertia_from_mesh mesh m in
    let '(lx, ly, lz) := box_extents (Trimesh.bounds mesh) in
    com = box_center (Trimesh.bounds mesh) /\
    inertia = diag (CalculateInertia.inertia_box m lx ly lz) /\
    printed = [InvalidVolume] /\
    (box_extents (Trimesh.bounds mesh) = (2, 2, 2) -> m = 1 ->
     inertia = diag (2 / 3, 2 / 3, 2 / 3)).
Proof.
  intros mesh m Hvol.
  unfold compute_inertia_from_mesh.
  destruct (Rlt_dec 0 (Trimesh.volume mesh)) as [Hpos | _]; [lra |].
  destruct (Rle_dec (Trimesh.volume mesh) 0) as [_ | Hneg]; [| lra].
  destruct (Trimesh.bounds mesh) as [[[x0 y0] z0] [[x1 y1] z1]].
  simpl. repeat split.
  - intros Hext -> .
    injection Hext as -> -> -> .
    unfold diag. tuple_eq; lra.
Qed.

Lemma degenerate_volume_falls_back_to_bounding_box_witness :
  let '(_, printed, (com, inertia)) :=
    compute_inertia_from_mesh flat_cube_mesh 1 in
  let '(lx, ly, lz) := box_extents (Trimesh.bounds flat_cube_mesh) in
  com = box_center (Trimesh.bounds flat_cube_mesh) /\
  inertia = diag (CalculateInertia.inertia_box 1 lx ly lz) /\
  printed = [InvalidVolume] /\
  (box_extents (Trimesh.bounds flat_cube_mesh) = (2, 2, 2) -> 1 = 1 ->
   inertia = diag (2 / 3, 2 / 3, 2 / 3)).
Proof.
  apply (degenerate_volume_falls_back_to_bounding_box flat_cube_mesh 1).
  simpl. lra.
Defined.

(** C9, as stated, fails: for a mesh of positive volume the function
    assigns the [density] attribute of the mesh it was given.  The mesh of
    volume 2 enters with density 1 and leaves with density 1/2 when the
    target mass is 1, and its [moment_inertia] is halved with it. *)
Lemma compute_inertia_from_mesh_writes_density :
  let '(mesh', _, _) := compute_inertia_from_mesh solid_mesh 1 in
  Trimesh.density solid_mesh = 1 /\
  Trimesh.density mesh' = 1 / 2 /\
  mesh' <> solid_mesh /\
  Trimesh.moment_inertia mesh' <> Trimesh.moment_inertia solid_mesh.
Proof.
  unfold compute_inertia_from_mesh.
  destruct (Rlt_dec 0 (Trimesh.volume solid_mesh)) as [_ | H];
    [| exfalso; apply H; simpl; lra].
  destruct (Rle_dec _ 0) as [H | _]; [simpl in H; lra |].
  simpl. split; [reflexivity |]. split; [lra |].
  split; intros H; injection H; intros; lra.
Qed.

(** C9, amended.  The function writes one attribute of the mesh and no
    other: when the volume is positive the density becomes mass / volume,
    and when it is not the mesh is left as it was.  Volume, centre of
    mass, unit-density inertia, bounding box and the watertight flag are
    never modified. *)
Theorem compute_inertia_from_mesh_frame :
  forall (mesh : Trimesh.mesh) (m : R),
    let '(mesh', _, _) := compute_inertia_from_mesh mesh m in
    Trimesh.geom_volume mesh' = Trimesh.geom_volume mesh /\
    Trimesh.geom_center_mass mesh' = Trimesh.geom_center_mass mesh /\
    Trimesh.geom_unit_inertia mesh' = Trimesh.geom_unit_inertia mesh /\
    Trimesh.geom_bounds mesh' = Trimesh.geom_bounds mesh /\
    Trimesh.is_watertight mesh' = Trimesh.is_watertight mesh /\
    (0 < Trimesh.volume mesh ->
     Trimesh.density mesh' = m / Trimesh.volume mesh) /\
    (Trimesh.volume mesh <= 0 -> mesh' = mesh).
Proof.
  intros mesh m.
  unfold compute_inertia_from_mesh.
  destruct (Rlt_dec 0 (Trimesh.volume mesh)) as [Hpos | Hnpos].
  - destruct (Rle_dec (Trimesh.volume (Trimesh.set_density mesh _)) 0)
      as [Hle | _]; [simpl in Hle; unfold Trimesh.volume in Hpos; lra |].
    simpl. repeat split; try reflexivity. intros; lra.
  - destruct (Rle_dec (Trimesh.volume mesh) 0) as [_ | Hgt]; [| lra].
    repeat split; try reflexivity. intros; lra.
Qed.

End MeshCalculator.

(** ** Quaternions and rotation matrices *)

Section Rotations.
Import CalculateInertia.

Lemma norm_sqr :
  forall x y z w,
    Rotation.norm (x, y, z, w) * Rotation.norm (x, y, z, w)
    = x * x + y * y + z * z + w * w.
Proof.
  intros. unfold Rotation.norm. apply sqrt_sqrt. nra.
Qed.

Lemma norm_zero_iff :
  forall x y z w,
    Rotation.norm (x, y, z, w) = 0 <-> quat_norm2 (w, x, y, z) = 0.
Proof.
  intros x y z w. unfold quat_norm2. split; intros H.
  - pose proof (norm_sqr x y z w) as Hs. rewrite H in Hs. lra.
  - unfold Rotation.norm.
    replace (x * x + y * y + z * z + w * w) with 0 by lra.
    apply sqrt_0.
Qed.

Lemma norm_unit :
  forall x y z w,
    quat_norm2 (w, x, y, z) = 1 -> Rotation.norm (x, y, z, w) = 1.
Proof.
  intros x y z w H. unfold quat_norm2 in H. unfold Rotation.norm.
  replace (x * x + y * y + z * z + w * w) with 1 by lra.
  apply sqrt_1.
Qed.

Lemma overflow_threshold_large : 2 ^ 20 <= overflow_threshold.
Proof.
  unfold overflow_threshold.
  assert (H1 : 2 ^ 970 <= 2 ^ 1023) by (apply Rle_pow; [lra | lia]).
  assert (H2 : 2 ^ 20 <= 2 ^ 1023) by (apply Rle_pow; [lra | lia]).
  change (2 ^ 1024) with (2 * 2 ^ 1023). lra.
Qed.

Lemma underflow_threshold_pos : 0 < underflow_threshold.
Proof.
  unfold underflow_threshold. apply Rinv_0_lt_compat. apply pow_lt. lra.
Qed.

Lemma underflow_threshold_small : underflow_threshold <= / 2 ^ 4.
Proof.
  unfold underflow_threshold. apply Rinv_le_contravar.
  - apply pow_lt. lra.
  - apply Rle_pow; [lra | lia].
Qed.

Lemma two_pow : forall n : nat, 2 ^ n = IZR (2 ^ Z.of_nat n).
Proof. intros n. rewrite <- pow_IZR. reflexivity. Qed.

(** The square of 1e200 is out of range, and the square of 1e-200 rounds
    to zero. *)
Lemma square_of_1e200_overflows : square_overflows 1e200 = true.
Proof.
  unfold square_overflows, overflow_threshold.
  destruct (Rle_dec (2 ^ 1024 - 2 ^ 970) (1e200 * 1e200)) as [_ | H];
    [reflexivity |].
  exfalso. apply H.
  rewrite !two_pow. rewrite <- minus_IZR, <- !mult_IZR. apply IZR_le.
  vm_compute. discriminate.
Qed.

Lemma square_of_1e_minus_200_underflows : 1e-200 * 1e-200 <= underflow_threshold.
Proof.
  unfold underflow_threshold. rewrite two_pow.
  replace (1e-200 * 1e-200)
    with (/ IZR (Z.pow_pos 10 200 * Z.pow_pos 10 200)).
  - apply Rinv_le_contravar.
    + apply IZR_lt. vm_compute. reflexivity.
    + apply IZR_le. vm_compute. discriminate.
  - rewrite mult_IZR. unfold Rdiv. rewrite Rmult_1_l.
    rewrite Rinv_mult. reflexivity.
Qed.

(** A dimension between -1000 and 1000 has a square in range. *)
Lemma square_fits :
  forall x, -1000 <= x <= 1000 -> square_overflows x = false.
Proof.
  intros x Hx. unfold square_overflows.
  destruct (Rle_dec overflow_threshold (x * x)) as [H | _]; [| reflexivity].
  pose proof overflow_threshold_large as Ht.
  assert (H20 : 2 ^ 20 = 1048576) by (simpl; lra).
  nra.
Qed.

Lemma power_check_fits :
  forall ds,
    Forall (fun d => -1000 <= d <= 1000) ds -> power_check ds = Ok tt.
Proof.
  induction ds as [| d ds IH]; intros H; cbn [power_check].
  - reflexivity.
  - inversion H as [| ? ? Hd Hds]; subst.
    rewrite (square_fits d Hd). apply IH. exact Hds.
Qed.

(** The check passes exactly when no square overflows, and it fails with
    [OverflowError] only. *)
Lemma power_check_cases :
  forall ds,
    (power_check ds = Ok tt /\
     forall d, In d ds -> square_overflows d = false) \/
    (power_check ds = Raise OverflowError /\
     exists d, In d ds /\ square_overflows d = true).
Proof.
  induction ds as [| d ds IH]; cbn [power_check].
  - left. split; [reflexivity | intros d []].
  - destruct (square_overflows d) eqn:Hd.
    + right. split; [reflexivity |]. exists d.
      split; [left; reflexivity | exact Hd].
    + destruct IH as [[-> Hall] | [-> (d' & Hin & Hd')]].
      * left. split; [reflexivity |].
        intros d' [<- | Hin]; [exact Hd | apply Hall; exact Hin].
      * right. split; [reflexivity |]. exists d'.
        split; [right; exact Hin | exact Hd'].
Qed.

(** The norm underflows to zero exactly when each of the four squares is
    at most the underflow threshold. *)
Lemma zero_norm_iff :
  forall x y z w,
    Rotation.zero_norm (x, y, z, w) = true <->
    x * x <= underflow_threshold /\ y * y <= underflow_threshold /\
    z * z <= underflow_threshold /\ w * w <= underflow_threshold.
Proof.
  intros x y z w. unfold Rotation.zero_norm, square_underflows.
  destruct (Rle_dec (x * x) underflow_threshold),
    (Rle_dec (y * y) underflow_threshold),
    (Rle_dec (z * z) underflow_threshold),
    (Rle_dec (w * w) underflow_threshold); cbn [andb];
    split; intros H; try discriminate H; try reflexivity; tauto.
Qed.

(** The zero quaternion has norm zero, and a quaternion whose squared
    norm is at least one half has not. *)
Lemma zero_norm_zero :
  forall x y z w,
    quat_norm2 (w, x, y, z) = 0 -> Rotation.zero_norm (x, y, z, w) = true.
Proof.
  intros x y z w H. unfold quat_norm2 in H. apply zero_norm_iff.
  pose proof underflow_threshold_pos.
  repeat split; nra.
Qed.

Lemma zero_norm_large :
  forall x y z w,
    1 / 2 <= quat_norm2 (w, x, y, z) ->
    Rotation.zero_norm (x, y, z, w) = false.
Proof.
  intros x y z w H. unfold quat_norm2 in H.
  destruct (Rotation.zero_norm (x, y, z, w)) eqn:Hz; [| reflexivity].
  apply zero_norm_iff in Hz. destruct Hz as (Hx & Hy & Hz & Hw).
  pose proof underflow_threshold_small as Hs.
  assert (H4 : / 2 ^ 4 = 1 / 16) by (simpl; lra).
  lra.
Qed.

Lemma zero_norm_false_nonzero :
  forall x y z w,
    Rotation.zero_norm (x, y, z, w) = false ->
    quat_norm2 (w, x, y, z) <> 0.
Proof.
  intros x y z w H Hz. rewrite (zero_norm_zero _ _ _ _ Hz) in H.
  discriminate H.
Qed.

(** The quaternion that [from_quat] stores has unit norm. *)
Lemma from_quat_normalises :
  forall x y z w q',
    Rotation.from_quat (x, y, z, w) = Ok q' ->
    let '(x', y', z', w') := q' in
    x' * x' + y' * y' + z' * z' + w' * w' = 1 /\
    Rotation.zero_norm (x, y, z, w) = false.
Proof.
  intros x y z w q'. unfold Rotation.from_quat.
  destruct (Rotation.zero_norm (x, y, z, w)) eqn:Hzn;
    [intros H; discriminate H |].
  assert (Hn : Rotation.norm (x, y, z, w) <> 0).
  { intros H0. apply (zero_norm_false_nonzero _ _ _ _ Hzn).
    apply norm_zero_iff. exact H0. }
  intros H. injection H as <-. cbv beta iota.
  pose proof (norm_sqr x y z w) as Hs.
  split; [| reflexivity].
  set (n := Rotation.norm (x, y, z, w)) in *.
  change (x / n * (x / n) + y / n * (y / n) + z / n * (z / n)
          + w / n * (w / n) = 1).
  replace (x / n * (x / n) + y / n * (y / n) + z / n * (z / n)
           + w / n * (w / n))
    with ((x * x + y * y + z * z + w * w) / (n * n)) by (field; exact Hn).
  rewrite <- Hs. field. exact Hn.
Qed.

Lemma from_quat_zero_norm :
  forall x y z w,
    Rotation.zero_norm (x, y, z, w) = true ->
    Rotation.from_quat (x, y, z, w) = Raise ZeroNormQuaternion.
Proof.
  intros x y z w H. unfold Rotation.from_quat. rewrite H. reflexivity.
Qed.

Lemma from_quat_zero :
  forall x y z w,
    quat_norm2 (w, x, y, z) = 0 ->
    Rotation.from_quat (x, y, z, w) = Raise ZeroNormQuaternion.
Proof.
  intros x y z w H. apply from_quat_zero_norm. apply zero_norm_zero.
  exact H.
Qed.

Lemma from_quat_accepts :
  forall x y z w,
    Rotation.zero_norm (x, y, z, w) = false ->
    let n := Rotation.norm (x, y, z, w) in
    Rotation.from_quat (x, y, z, w) = Ok (x / n, y / n, z / n, w / n).
Proof.
  intros x y z w H. unfold Rotation.from_quat. rewrite H. reflexivity.
Qed.

Lemma from_quat_nonzero :
  forall x y z w,
    1 / 2 <= quat_norm2 (w, x, y, z) ->
    let n := Rotation.norm (x, y, z, w) in
    Rotation.from_quat (x, y, z, w) = Ok (x / n, y / n, z / n, w / n).
Proof.
  intros x y z w H. apply from_quat_accepts. apply zero_norm_large.
  exact H.
Qed.

(** The matrix of a stored unit quaternion is a proper rotation. *)
Lemma as_matrix_rotation :
  forall x y z w,
    x * x + y * y + z * z + w * w = 1 ->
    rotation (Rotation.as_matrix (x, y, z, w)).
Proof.
  intros x y z w H. split.
  - unfold orthogonal. linalg. tuple_eq; nsatz.
  - linalg. nsatz.
Qed.

(** [R @ D @ R.T] is symmetric whatever the matrix [R]. *)
Lemma congruence_symmetric :
  forall (Rm : mat3) (d : vec3),
    symmetric (matmul (matmul Rm (diag d)) (transpose Rm)).
Proof.
  intros Rm d. split_mat Rm. split_vec d.
  intros [] []; linalg; ring.
Qed.

(** A similarity transform by an orthogonal matrix keeps the trace. *)
Lemma similarity_trace :
  forall (Rm : mat3) (d : vec3),
    orthogonal Rm ->
    trace (matmul (matmul Rm (diag d)) (transpose Rm))
    = vget d I0 + vget d I1 + vget d I2.
Proof.
  intros Rm d. split_mat Rm. split_vec d.
  unfold orthogonal. linalg.
  intros H. injection H as H00 H01 H02 H10 H11 H12 H20 H21 H22.
  nsatz.
Qed.

Lemma symmetric_urdf_roundtrip :
  forall T : mat3,
    symmetric T <-> tensor_of_urdf (inertia_tensor_to_urdf T) = T.
Proof.
  intros T. split_mat T. unfold tensor_of_urdf, inertia_tensor_to_urdf.
  linalg. split.
  - intros H.
    pose proof (H I0 I1) as H01. pose proof (H I0 I2) as H02.
    pose proof (H I1 I2) as H12. linalg in H01. linalg in H02.
    linalg in H12. subst. reflexivity.
  - intros H. injection H as H1 H2 H3.
    intros [] []; linalg; congruence.
Qed.

(** What [rotate_inertia] returns, case by case on the test of the
    norm. *)
Lemma rotate_inertia_cases :
  forall (d : vec3) (w x y z : R),
    match rotate_inertia d (w, x, y, z) with
    | Ok T =>
        Rotation.zero_norm (x, y, z, w) = false /\
        exists Rm,
          quat_to_rotation_matrix (w, x, y, z) = Ok Rm /\
          rotation Rm /\
          T = matmul (matmul Rm (diag d)) (transpose Rm)
    | Raise e =>
        Rotation.zero_norm (x, y, z, w) = true /\ e = ZeroNormQuaternion
    end.
Proof.
  intros d w x y z.
  unfold rotate_inertia, quat_to_rotation_matrix.
  destruct (Rotation.from_quat (x, y, z, w)) as [q' | e] eqn:Hq; cbn [bind].
  - pose proof (from_quat_normalises _ _ _ _ _ Hq) as Hn.
    destruct q' as [[[x' y'] z'] w']. destruct Hn as [Hunit Hnz].
    split; [exact Hnz |].
    eexists. split; [reflexivity |].
    split; [apply as_matrix_rotation; exact Hunit | reflexivity].
  - destruct (Rotation.zero_norm (x, y, z, w)) eqn:Hz.
    + rewrite (from_quat_zero_norm _ _ _ _ Hz) in Hq.
      split; [reflexivity | congruence].
    + rewrite (from_quat_accepts _ _ _ _ Hz) in Hq. discriminate.
Qed.

End Rotations.

(** ** Recomposition *)

Section Recompose.
Import CalculateInertia.




(** A quaternion that is not of unit norm is normalised first: (2, 0, 0,
    0) stands for the identity rotation. *)
Example rotate_inertia_unnormalised :
  rotate_inertia (1, 2, 3) (2, 0, 0, 0)
  = Ok ((1, 0, 0), (0, 2, 0), (0, 0, 3)).
Proof.
  assert (Hnorm : Rotation.norm (0, 0, 0, 2) = 2).
  { unfold Rotation.norm.
    replace (0 * 0 + 0 * 0 + 0 * 0 + 2 * 2) with (2 * 2) by lra.
    apply sqrt_square. lra. }
  unfold rotate_inertia, quat_to_rotation_matrix.
  rewrite from_quat_nonzero by (unfold quat_norm2; lra).
  rewrite Hnorm. cbn [bind]. linalg.
  f_equal. tuple_eq; lra.
Qed.

Example rotate_inertia_zero_quaternion :
  rotate_inertia (1, 2, 3) (0, 0, 0, 0) = Raise ZeroNormQuaternion.
Proof.
  unfold rotate_inertia, quat_to_rotation_matrix.
  rewrite from_quat_zero by (unfold quat_norm2; lra).
  reflexivity.
Qed.

(** The trace is kept for every orientation the function accepts, unit or
    not, since the quaternion is normalised first. *)
Lemma rotate_inertia_trace_any_norm :
  forall (d : vec3) (q : quat_wxyz) (T : mat3),
    rotate_inertia d q = Ok T ->
    trace T = vget d I0 + vget d I1 + vget d I2.
Proof.
  intros d [[[w x] y] z] T H.
  pose proof (rotate_inertia_cases d w x y z) as Hc. rewrite H in Hc.
  destruct Hc as (_ & Rm & _ & [Horth _] & ->).
  apply similarity_trace. exact Horth.
Qed.

(** C10, as stated, fails: the product is computed in binary64, and
    rounded it is no longer symmetric.  For the moments (5, 0, 0) and the
    quaternion [3, 0, 0, 4], a turn about Z whose norm is exactly 5,
    every entry of the result is a single chain of products, so the order
    of summation plays no part: the entries (0,1) and (1,0) come out one
    unit in the last place apart, and the six components that
    [inertia_tensor_to_urdf] extracts no longer give the tensor back. *)
Lemma rotate_inertia_rounding_breaks_symmetry :
  match Binary64.CalculateInertia.rotate_inertia
          (5, 0, 0)%float (3, 0, 0, 4)%float with
  | Ok T =>
      Binary64.mget T I0 I1 = (-1.3440000000000007)%float /\
      Binary64.mget T I1 I0 = (-1.3440000000000005)%float /\
      Binary64.tensor_of_urdf
        (Binary64.CalculateInertia.inertia_tensor_to_urdf T) <> T
  | Raise _ => False
  end.
Proof.
  vm_compute. split; [reflexivity |]. split; [reflexivity |].
  intros H.
  apply (f_equal (fun M => PrimFloat.eqb (Binary64.mget M I1 I0)
                             (-1.3440000000000005)%float)) in H.
  vm_compute in H. discriminate H.
Qed.

(** The orientation of the table's own neck_pitch_link does the same to
    the isotropic moments of that link. *)
Example rotate_inertia_neck_pitch_link :
  match Binary64.CalculateInertia.rotate_inertia
          (Binary64.CalculateInertia.inertia_box 0.6 0.18 0.18 0.18)
          (0.966, 0.001, 0.087, 0.001)%float with
  | Ok T =>
      PrimFloat.eqb (Binary64.mget T I0 I1) (Binary64.mget T I1 I0) = false
  | Raise _ => False
  end.
Proof. vm_compute. reflexivity. Qed.

(** The six components keep all of a binary64 tensor exactly when its
    lower triangle repeats its upper triangle. *)
Lemma urdf_keeps_upper_triangle :
  forall T : Binary64.mat3,
    Binary64.tensor_of_urdf
      (Binary64.CalculateInertia.inertia_tensor_to_urdf T) = T
    <-> (Binary64.mget T I1 I0 = Binary64.mget T I0 I1 /\
         Binary64.mget T I2 I0 = Binary64.mget T I0 I2 /\
         Binary64.mget T I2 I1 = Binary64.mget T I1 I2).
Proof.
  intros [[[[a b] c] [[d e] f]] [[g h] i]].
  cbv [Binary64.tensor_of_urdf Binary64.CalculateInertia.inertia_tensor_to_urdf
       Binary64.mget Binary64.vget Binary64.mrow].
  split.
  - intros H. injection H as -> -> ->. repeat split.
  - intros (-> & -> & ->). reflexivity.
Qed.

(** C10, amended.  Evaluated in exact arithmetic, a tensor returned by
    [rotate_inertia] is symmetric whatever the diagonal triple and the
    quaternion, unit or not, and is given back by the six components of
    [inertia_tensor_to_urdf].  A tensor is returned unless the four
    squares of the quaternion all round to zero, in which case the error
    of [Rotation.from_quat] is raised.  On binary64 numbers the
    extraction reads the diagonal and the upper triangle of whatever
    tensor it is given, so it keeps all of it exactly when the lower
    triangle repeats the upper one. *)
Theorem rotate_inertia_symmetric_in_exact_arithmetic :
  (forall (d : vec3) (w x y z : R),
      match rotate_inertia d (w, x, y, z) with
      | Ok T =>
          symmetric T /\
          tensor_of_urdf (inertia_tensor_to_urdf T) = T /\
          Rotation.zero_norm (x, y, z, w) = false
      | Raise e =>
          e = ZeroNormQuaternion /\
          x * x <= underflow_threshold /\ y * y <= underflow_threshold /\
          z * z <= underflow_threshold /\ w * w <= underflow_threshold
      end) /\
  (forall T : Binary64.mat3,
      Binary64.tensor_of_urdf
        (Binary64.CalculateInertia.inertia_tensor_to_urdf T) = T
      <-> (Binary64.mget T I1 I0 = Binary64.mget T I0 I1 /\
           Binary64.mget T I2 I0 = Binary64.mget T I0 I2 /\
           Binary64.mget T I2 I1 = Binary64.mget T I1 I2)).
Proof.
  split; [| exact urdf_keeps_upper_triangle].
  intros d w x y z.
  pose proof (rotate_inertia_cases d w x y z) as Hc.
  destruct (rotate_inertia d (w, x, y, z)) as [T | e].
  - destruct Hc as (Hnz & Rm & _ & _ & ->).
    pose proof (congruence_symmetric Rm d) as Hsym.
    split; [exact Hsym |].
    split; [apply symmetric_urdf_roundtrip; exact Hsym | exact Hnz].
  - destruct Hc as [Hz ->]. split; [reflexivity |].
    apply zero_norm_iff. exact Hz.
Qed.

End Recompose.

(** ** Shape dispatch *)

Section Dispatch.
Import CalculateInertia.

Lemma supported_dec :
  forall s, supported s \/ ~ supported s.
Proof.
  intros s. unfold supported.
  case_shape s; try tauto.
Qed.

Lemma calculate_inertia_steps :
  forall l : link_data,
    calculate_inertia l
    = (dg <- dispatch (mass l) (shape l) (dims l) ;; orient dg (quat l)).
Proof. reflexivity. Qed.

(** The dispatch on a supported tag: it fails with [IndexError] when
    [dims] is too short, with [OverflowError] when a dimension it reads
    has a square out of range, and otherwise gives the moments of one of
    the four formulas. *)
Lemma dispatch_cases :
  forall m s ds,
    supported s ->
    match dispatch m s ds with
    | Ok dg =>
        (dims_needed s <= List.length ds)%nat /\
        (forall d, In d (firstn (dims_needed s) ds) ->
                   square_overflows d = false) /\
        exists a b c,
          dg = inertia_box m a b c \/ dg = inertia_cylinder_z m a b \/
          dg = inertia_cylinder_y m a b \/ dg = inertia_sphere m a
    | Raise e =>
        (e = IndexError /\ (List.length ds < dims_needed s)%nat) \/
        (e = OverflowError /\
         (dims_needed s <= List.length ds)%nat /\
         exists d, In d (firstn (dims_needed s) ds) /\
                   square_overflows d = true)
    end.
Proof.
  intros m s ds Hs. unfold dispatch, dims_needed, supported in *.
  case_shape s; cbn [String.eqb Ascii.eqb Bool.eqb]; [| | | | exfalso; tauto].
  all: destruct ds as [| d0 [| d1 [| d2 ds]]];
    cbn [index nth_error bind List.length firstn].
  all: try (left; split; [reflexivity | lia]).
  all: match goal with
       | |- context [power_check ?l] =>
           destruct (power_check_cases l) as [[-> Hall] | [-> Hex]]
       end; cbn [bind].
  all: try (right; split; [reflexivity |]; split; [lia | exact Hex]).
  all: split; [lia |]; split; [exact Hall |].
  all: first [ exists d0, d1, d2; left; reflexivity
             | exists d0, d1, 0; right; left; reflexivity
             | exists d0, d1, 0; right; right; left; reflexivity
             | exists d0, 0, 0; right; right; right; reflexivity ].
Qed.

Lemma dispatch_unsupported :
  forall m s ds, ~ supported s -> dispatch m s ds = Raise (UnknownShape s).
Proof.
  intros m s ds Hns. unfold dispatch, supported in *.
  case_shape s; cbn [String.eqb Ascii.eqb Bool.eqb]; try reflexivity;
    exfalso; apply Hns; tauto.
Qed.

(** The orientation step: without a quaternion it returns the moments
    alone; with one it fails on a list that has not four items or whose
    norm underflows to zero, and otherwise adds the rotated tensor and
    hands the list back. *)
Lemma orient_cases :
  forall (dg : vec3) (q : option (list R)),
    match orient dg q with
    | Ok r =>
        match q with
        | None => r = (vget dg I0, vget dg I1, vget dg I2, None, None)
        | Some ql =>
            exists w x y z T,
              ql = [w; x; y; z] /\
              Rotation.zero_norm (x, y, z, w) = false /\
              rotate_inertia dg (w, x, y, z) = Ok T /\
              r = (vget dg I0, vget dg I1, vget dg I2, Some T, Some ql)
        end
    | Raise e =>
        exists ql,
          q = Some ql /\
          ((e = UnpackError /\ List.length ql <> 4%nat) \/
           (e = ZeroNormQuaternion /\
            exists w x y z,
              ql = [w; x; y; z] /\
              Rotation.zero_norm (x, y, z, w) = true))
    end.
Proof.
  intros dg [ql |]; cbn [orient]; [| reflexivity].
  destruct ql as [| w [| x [| y [| z [| u ql]]]]]; cbn [unpack4 bind].
  all: try (eexists; split; [reflexivity |]; left;
            split; [reflexivity | cbn [List.length]; lia]).
  pose proof (rotate_inertia_cases dg w x y z) as Hc.
  destruct (rotate_inertia dg (w, x, y, z)) as [T | e] eqn:HT; cbn [bind].
  - destruct Hc as [Hnz _]. exists w, x, y, z, T.
    split; [reflexivity |]. split; [exact Hnz |].
    split; [exact HT | reflexivity].
  - destruct Hc as [Hz ->]. eexists. split; [reflexivity |]. right.
    split; [reflexivity |]. exists w, x, y, z. split; [reflexivity | exact Hz].
Qed.

Lemma orient_well_formed :
  forall (dg : vec3) (q : option (list R)),
    (exists r, orient dg q = Ok r) <->
    match q with
    | None => True
    | Some ql =>
        exists w x y z,
          ql = [w; x; y; z] /\ Rotation.zero_norm (x, y, z, w) = false
    end.
Proof.
  intros dg q. pose proof (orient_cases dg q) as Hc.
  destruct (orient dg q) as [r | e]; split.
  - intros _. destruct q as [ql |]; [| exact I].
    destruct Hc as (w & x & y & z & T & Hq & Hz & _).
    exists w, x, y, z. split; assumption.
  - intros _. exists r. reflexivity.
  - intros [r H]. discriminate H.
  - intros H. exfalso.
    destruct Hc as (ql & -> & [[_ Hlen] | [_ (w & x & y & z & -> & Hz)]]).
    + destruct H as (w & x & y & z & -> & _). apply Hlen. reflexivity.
    + destruct H as (w' & x' & y' & z' & Heq & Hz').
      injection Heq as <- <- <- <-. congruence.
Qed.

(** On a supported tag the unknown-shape error does not arise, a result
    is returned exactly on the entries the calculator can work on, and
    the errors are those of indexing, squaring and orienting. *)
Lemma calculate_inertia_supported :
  forall l : link_data,
    supported (shape l) ->
    (forall s, calculate_inertia l <> Raise (UnknownShape s)) /\
    ((exists r, calculate_inertia l = Ok r) <-> well_formed l) /\
    (forall e,
        calculate_inertia l = Raise e ->
        e = IndexError \/ e = OverflowError \/ e = UnpackError \/
        e = ZeroNormQuaternion).
Proof.
  intros l Hs. rewrite calculate_inertia_steps. unfold well_formed.
  pose proof (dispatch_cases (mass l) (shape l) (dims l) Hs) as Hd.
  destruct (dispatch (mass l) (shape l) (dims l)) as [dg | e]; cbn [bind].
  - destruct Hd as (Hlen & Hfit & _).
    pose proof (orient_cases dg (quat l)) as Ho.
    pose proof (orient_well_formed dg (quat l)) as Hw.
    split; [| split].
    + intros s H. rewrite H in Ho.
      destruct Ho as (ql & _ & [[He _] | [He _]]); discriminate He.
    + rewrite Hw. tauto.
    + intros e H. rewrite H in Ho.
      destruct Ho as (ql & _ & [[-> _] | [-> _]]); tauto.
  - split; [| split].
    + intros s H.
      destruct Hd as [[He _] | [He _]]; rewrite He in H; discriminate H.
    + split.
      * intros [r H]. discriminate H.
      * intros (Hlen & Hfit & _). exfalso.
        destruct Hd as [[_ Hshort] | [_ (_ & d & Hin & Hov)]]; [lia |].
        rewrite (Hfit d Hin) in Hov. discriminate Hov.
    + intros e' H. injection H as <-.
      destruct Hd as [[-> _] | [-> _]]; tauto.
Qed.

Lemma calculate_inertia_unsupported :
  forall l : link_data,
    ~ supported (shape l) ->
    calculate_inertia l = Raise (UnknownShape (shape l)).
Proof.
  intros l Hns. rewrite calculate_inertia_steps.
  rewrite (dispatch_unsupported _ _ _ Hns). reflexivity.
Qed.

(** Entries that differ in their centre of mass alone have the same
    outcome. *)
Lemma calculate_inertia_reads :
  forall l l' : link_data,
    mass l' = mass l -> shape l' = shape l -> dims l' = dims l ->
    quat l' = quat l ->
    calculate_inertia l' = calculate_inertia l.
Proof.
  intros l l' Hm Hs Hd Hq. rewrite !calculate_inertia_steps.
  rewrite Hm, Hs, Hd, Hq. reflexivity.
Qed.

(** A box that computes, and the evaluation of entries whose dimensions
    are of ordinary size. *)
Lemma calculate_inertia_box :
  forall m d0 d1 d2 ds c,
    -1000 <= d0 <= 1000 -> -1000 <= d1 <= 1000 -> -1000 <= d2 <= 1000 ->
    calculate_inertia (LinkData m "box" (d0 :: d1 :: d2 :: ds) c None)
    = Ok (vget (inertia_box m d0 d1 d2) I0, vget (inertia_box m d0 d1 d2) I1,
          vget (inertia_box m d0 d1 d2) I2, None, None).
Proof.
  intros m d0 d1 d2 ds c H0 H1 H2. unfold calculate_inertia.
  cbn [mass shape dims quat String.eqb Ascii.eqb Bool.eqb index nth_error
       bind].
  rewrite power_check_fits by dims_fit.
  reflexivity.
Qed.

(** C7, as stated, fails: a supported tag does not make the function
    return.  A box whose [dims] list has two entries raises [IndexError],
    a box with an edge of 1e200 raises [OverflowError], and a box whose
    orientation is [1e-200, 0, 0, 0] raises the zero-norm error of
    scipy. *)
Lemma calculate_inertia_supported_shape_raises :
  (supported (shape short_box) /\
   calculate_inertia short_box = Raise IndexError) /\
  (supported (shape huge_box) /\
   calculate_inertia huge_box = Raise OverflowError) /\
  (supported (shape faint_box) /\
   calculate_inertia faint_box = Raise ZeroNormQuaternion).
Proof.
  split; [split; [left; reflexivity | reflexivity] |].
  split; (split; [left; reflexivity |]).
  - unfold calculate_inertia, huge_box.
    cbn [mass shape dims quat String.eqb Ascii.eqb Bool.eqb index nth_error
         bind power_check].
    rewrite square_of_1e200_overflows. reflexivity.
  - unfold calculate_inertia, faint_box.
    cbn [mass shape dims quat String.eqb Ascii.eqb Bool.eqb index nth_error
         bind unpack4].
    rewrite power_check_fits by dims_fit. cbn [bind].
    unfold rotate_inertia, quat_to_rotation_matrix.
    rewrite from_quat_zero_norm; [reflexivity |].
    apply zero_norm_iff. pose proof underflow_threshold_pos as Hp.
    pose proof square_of_1e_minus_200_underflows as Hs.
    repeat split; first [exact Hs | lra].
Qed.

(** The same two inputs on binary64 numbers: the square of 1e200 is
    infinite, and the norm of [1e-200, 0, 0, 0] is zero. *)
Example binary64_range :
  Binary64.square 1e200 = PrimFloat.infinity /\
  Binary64.CalculateInertia.quat_to_rotation_matrix (1e-200, 0, 0, 0)%float
  = Raise ZeroNormQuaternion.
Proof. split; vm_compute; reflexivity. Qed.

(** C7, amended.  [calculate_inertia] raises the unknown-shape error
    exactly when the shape tag is none of box, cylinder_y, cylinder_z,
    sphere, and the error then carries that tag.  On one of the four tags
    it returns a result exactly when [dims] has the entries the shape
    needs, the square of each of them is in the range of binary64 and the
    orientation, if there is one, has four components whose norm does not
    underflow to zero; otherwise it raises [IndexError], [OverflowError]
    or one of the two errors of the orientation.  The outcome depends on
    the mass, the shape, the dimensions and the orientation of the entry
    and on nothing else, and inside the loop of [main] a call leaves the
    variables of the loop alone: when it raises, the loop ends in the
    state it was in, and when it returns, what is printed for the body is
    what the checker prints. *)
Theorem calculate_inertia_outcomes :
  forall l : link_data,
    ((exists s, calculate_inertia l = Raise (UnknownShape s))
     <-> ~ supported (shape l)) /\
    (~ supported (shape l) ->
     calculate_inertia l = Raise (UnknownShape (shape l))) /\
    (supported (shape l) ->
     ((exists r, calculate_inertia l = Ok r) <-> well_formed l) /\
     (forall e,
         calculate_inertia l = Raise e ->
         e = IndexError \/ e = OverflowError \/ e = UnpackError \/
         e = ZeroNormQuaternion)) /\
    (forall l' : link_data,
        mass l' = mass l -> shape l' = shape l -> dims l' = dims l ->
        quat l' = quat l ->
        calculate_inertia l' = calculate_inertia l) /\
    (forall name st,
        match calculate_inertia l with
        | Ok (ixx, iyy, izz, _, _) =>
            exists st',
              main_loop [(name, l)] st = (st', None) /\
              stdout st' = stdout st ++ fst (validate_inertia name ixx iyy izz)
        | Raise e => main_loop [(name, l)] st = (st, Some e)
        end).
Proof.
  intros l. split; [split | split; [| split; [| split]]].
  - intros [s H] Hs.
    destruct (calculate_inertia_supported l Hs) as [Hnot _].
    exact (Hnot s H).
  - intros Hns. exists (shape l).
    apply calculate_inertia_unsupported. exact Hns.
  - apply calculate_inertia_unsupported.
  - intros Hs. apply (calculate_inertia_supported l Hs).
  - intros l'. apply calculate_inertia_reads.
  - intros name st. cbn [main_loop]. unfold loop_body.
    destruct (calculate_inertia l) as [[[[[ixx iyy] izz] I_full] q] | e];
      cbn [bind]; [| reflexivity].
    destruct (validate_inertia name ixx iyy izz) as [printed valid].
    eexists. split; reflexivity.
Qed.

Lemma calculate_inertia_outcomes_witness :
  (exists r, calculate_inertia turned_box = Ok r) /\
  calculate_inertia cone = Raise (UnknownShape "cone").
Proof.
  split.
  - apply (proj2 (proj1 (proj1 (proj2 (proj2
             (calculate_inertia_outcomes turned_box)))
             (or_introl eq_refl)))).
    split; [change (3 <= 3)%nat; lia |].
    split.
    + cbn [dims_needed shape dims turned_box firstn String.eqb Ascii.eqb
           Bool.eqb].
      intros d Hin. apply square_fits.
      cbn [In] in Hin.
      destruct Hin as [<- | [<- | [<- | []]]]; lra.
    + exists 0.5, 0.5, 0.5, 0.5. split; [reflexivity |].
      apply zero_norm_large. unfold quat_norm2. lra.
  - apply (proj1 (proj2 (calculate_inertia_outcomes cone))).
    unfold supported. simpl.
    intros [H | [H | [H | H]]]; discriminate.
Defined.

End Dispatch.

(** ** Batch loops *)

Section Dictionaries.
Context {V : Type}.

Lemma dict_get_set_same :
  forall (d : list (string * V)) k v, dict_get (dict_set d k v) k = Some v.
Proof.
  induction d as [| [k' v'] d IH]; intros k v; simpl.
  - rewrite String.eqb_refl. reflexivity.
  - destruct (String.eqb_spec k' k) as [-> | Hne]; simpl.
    + rewrite String.eqb_refl. reflexivity.
    + destruct (String.eqb_spec k' k) as [He | _]; [contradiction |].
      apply IH.
Qed.

Lemma dict_get_set_other :
  forall (d : list (string * V)) k k' v,
    k <> k' -> dict_get (dict_set d k v) k' = dict_get d k'.
Proof.
  induction d as [| [k0 v0] d IH]; intros k k' v Hne; simpl.
  - destruct (String.eqb_spec k k') as [He | _]; [contradiction |].
    reflexivity.
  - destruct (String.eqb_spec k0 k) as [-> | Hne0]; simpl.
    + destruct (String.eqb_spec k k') as [He | _]; [contradiction |].
      reflexivity.
    + destruct (String.eqb_spec k0 k'); [reflexivity |].
      apply IH. exact Hne.
Qed.

End Dictionaries.

Section PrimitiveBatch.
Import CalculateInertia.

Lemma loop_body_cases :
  forall name data st,
    match calculate_inertia data with
    | Ok r =>
        exists st1,
          loop_body name data st = Ok st1 /\
          results st1 = dict_set (results st) name (entry_of data r)
    | Raise e => loop_body name data st = Raise e
    end.
Proof.
  intros name data st. unfold loop_body.
  destruct (calculate_inertia data) as [r | e]; simpl; [| reflexivity].
  destruct r as [[[[ixx iyy] izz] I_full] quat].
  destruct (validate_inertia name ixx iyy izz) as [printed valid].
  eexists. split; reflexivity.
Qed.

Lemma main_loop_app :
  forall pre post st,
    main_loop (pre ++ post) st =
      match main_loop pre st with
      | (st', None) => main_loop post st'
      | (st', Some e) => (st', Some e)
      end.
Proof.
  induction pre as [| [n d] pre IH]; intros post st; simpl.
  - reflexivity.
  - destruct (loop_body n d st) as [st1 | e]; [apply IH | reflexivity].
Qed.

Lemma main_loop_all_ok :
  forall links st,
    (forall n d, In (n, d) links -> exists r, calculate_inertia d = Ok r) ->
    exists st', main_loop links st = (st', None).
Proof.
  induction links as [| [n d] links IH]; intros st Hall; simpl.
  - exists st. reflexivity.
  - destruct (Hall n d (or_introl eq_refl)) as [r Hr].
    pose proof (loop_body_cases n d st) as Hb. rewrite Hr in Hb.
    destruct Hb as (st1 & -> & _).
    apply IH. intros n' d' Hin. apply (Hall n' d'). right. exact Hin.
Qed.

Lemma main_loop_other_keys :
  forall links st st' o k,
    main_loop links st = (st', o) ->
    ~ In k (map fst links) ->
    dict_get (results st') k = dict_get (results st) k.
Proof.
  induction links as [| [n d] links IH]; intros st st' o k Hrun Hk;
    simpl in Hrun.
  - injection Hrun as <- _. reflexivity.
  - pose proof (loop_body_cases n d st) as Hb.
    destruct (calculate_inertia d) as [r | e].
    + destruct Hb as (st1 & Hb & Hres). rewrite Hb in Hrun.
      rewrite (IH st1 st' o k Hrun)
        by (intros Hin; apply Hk; right; exact Hin).
      rewrite Hres. apply dict_get_set_other.
      intros ->. apply Hk. left. reflexivity.
    + rewrite Hb in Hrun. injection Hrun as <- _. reflexivity.
Qed.

(** After a run without exception over a table with distinct names,
    every body is in [results] with the values computed for it. *)
Lemma main_loop_records :
  forall links st st',
    NoDup (map fst links) ->
    main_loop links st = (st', None) ->
    forall n d,
      In (n, d) links ->
      exists r,
        calculate_inertia d = Ok r /\
        dict_get (results st') n = Some (entry_of d r).
Proof.
  induction links as [| [n0 d0] links IH]; intros st st' Hnd Hrun n d Hin;
    simpl in Hrun; [destruct Hin |].
  inversion Hnd as [| ? ? Hnotin Hnd']; subst.
  pose proof (loop_body_cases n0 d0 st) as Hb.
  destruct (calculate_inertia d0) as [r | e] eqn:Hr.
  - destruct Hb as (st1 & Hb & Hres). rewrite Hb in Hrun.
    destruct Hin as [Heq | Hin].
    + injection Heq as <- <-. exists r. split; [exact Hr |].
      rewrite (main_loop_other_keys links st1 st' None n0 Hrun Hnotin).
      rewrite Hres. apply dict_get_set_same.
    + apply (IH st1 st' Hnd' Hrun n d Hin).
  - rewrite Hb in Hrun. discriminate.
Qed.

Lemma dict_set_in :
  forall (V : Type) (d : list (string * V)) k0 v k e,
    In (k, e) (dict_set d k0 v) -> (k, e) = (k0, v) \/ In (k, e) d.
Proof.
  induction d as [| [k' v'] d IH]; intros k0 v k e Hin; simpl in Hin.
  - destruct Hin as [H | []]. left. symmetry. exact H.
  - destruct (String.eqb k' k0).
    + destruct Hin as [H | H]; [left; symmetry; exact H |].
      right. right. exact H.
    + destruct Hin as [H | H]; [right; left; exact H |].
      destruct (IH k0 v k e H) as [H' | H']; [left; exact H' |].
      right. right. exact H'.
Qed.

(** Every entry of [results] was put there for a body of the table. *)
Lemma main_loop_entries :
  forall links st st' o,
    main_loop links st = (st', o) ->
    forall k e,
      In (k, e) (results st') ->
      In (k, e) (results st) \/
      exists d r,
        In (k, d) links /\ calculate_inertia d = Ok r /\ e = entry_of d r.
Proof.
  induction links as [| [n d] links IH]; intros st st' o Hrun k e Hin;
    simpl in Hrun.
  - injection Hrun as <- _. left. exact Hin.
  - pose proof (loop_body_cases n d st) as Hb.
    destruct (calculate_inertia d) as [r | ex] eqn:Hr.
    + destruct Hb as (st1 & Hb & Hres). rewrite Hb in Hrun.
      destruct (IH st1 st' o Hrun k e Hin) as [H | (d' & r' & H1 & H2 & H3)].
      * rewrite Hres in H.
        destruct (dict_set_in _ _ _ _ _ _ H) as [Heq | Hold];
          [| left; exact Hold].
        injection Heq as -> ->. right. exists d, r.
        split; [left; reflexivity |]. split; [exact Hr | reflexivity].
      * right. exists d', r'. split; [right; exact H1 |]. split; assumption.
    + rewrite Hb in Hrun. injection Hrun as <- _. left. exact Hin.
Qed.

Lemma print_results_ok :
  forall res,
    (forall k e, In (k, e) res -> (3 <= List.length (e_com e))%nat) ->
    print_results res = Ok tt.
Proof.
  induction res as [| [k e] res IH]; intros Hlen; simpl.
  - reflexivity.
  - pose proof (Hlen k e (or_introl eq_refl)) as He.
    unfold print_entry.
    destruct (e_com e) as [| c0 [| c1 [| c2 cs]]]; simpl in He; try lia.
    simpl. apply IH. intros k' e' Hin. apply (Hlen k' e'). right. exact Hin.
Qed.

Lemma entry_of_com :
  forall d r, e_com (entry_of d r) = com d.
Proof.
  intros d [[[[ixx iyy] izz] I_full] q]. reflexivity.
Qed.

(** A run of the loop without exception over bodies that have their
    three coordinates is followed by a printing phase without
    exception. *)
Lemma main_returns :
  forall links st,
    main_loop links loop_init = (st, None) ->
    (forall n d, In (n, d) links -> com_complete d) ->
    main links = (stdout st, Ok (results st)).
Proof.
  intros links st Hrun Hcom. unfold main. rewrite Hrun.
  rewrite print_results_ok; [reflexivity |].
  intros k e Hin.
  destruct (main_loop_entries links loop_init st None Hrun k e Hin)
    as [[] | (d & r & Hd & _ & ->)].
  rewrite entry_of_com. apply (Hcom k d Hd).
Qed.

(** A body that fails ends the loop: the state is the one the bodies
    before it produced, and nothing after it is looked at. *)
Lemma main_loop_abort :
  forall pre name bad post e st,
    (forall n d, In (n, d) pre -> exists r, calculate_inertia d = Ok r) ->
    calculate_inertia bad = Raise e ->
    exists st',
      main_loop pre st = (st', None) /\
      main_loop (pre ++ (name, bad) :: post) st = (st', Some e).
Proof.
  intros pre name bad post e st Hpre Hbad.
  destruct (main_loop_all_ok pre st Hpre) as [st' Hst'].
  exists st'. split; [exact Hst' |].
  rewrite main_loop_app, Hst'. simpl.
  pose proof (loop_body_cases name bad st') as Hb. rewrite Hbad in Hb.
  rewrite Hb. reflexivity.
Qed.

End PrimitiveBatch.

Section MeshBatch.
Import CalculateInertiaFromStl.
Variable eigh : mat3 -> vec3 * mat3.

Lemma stl_loop_body_cases :
  forall masses link_name loaded st,
    match loaded with
    | Ok mesh =>
        exists st1,
          loop_body eigh masses link_name loaded st = (st1, None) /\
          results st1 =
            dict_set (results st) link_name
              (stl_entry_of eigh masses link_name mesh)
    | Raise e =>
        exists st1,
          loop_body eigh masses link_name loaded st = (st1, Some e) /\
          results st1 = results st /\ meshes st1 = meshes st
    end.
Proof.
  intros masses link_name loaded st. unfold loop_body, stl_entry_of.
  destruct loaded as [mesh | e]; simpl.
  - destruct (negb (Trimesh.is_watertight mesh));
      destruct (compute_inertia_from_mesh mesh _)
        as [[mesh' printed] [com inertia]];
      destruct (diagonalize_inertia eigh inertia) as [[p rot] q];
      destruct (validate_inertia link_name _ _ _) as [warnings valid];
      eexists; split; reflexivity.
  - eexists. split; [reflexivity |]. split; reflexivity.
Qed.

Lemma process_loop_app :
  forall masses pre post st,
    process_loop eigh masses (pre ++ post) st =
      match process_loop eigh masses pre st with
      | (st', None) => process_loop eigh masses post st'
      | (st', Some e) => (st', Some e)
      end.
Proof.
  induction pre as [| [n l] pre IH]; intros post st; simpl.
  - reflexivity.
  - destruct (loop_body eigh masses n l st) as [st1 [e |]];
      [reflexivity | apply IH].
Qed.

Lemma process_loop_all_ok :
  forall masses files st,
    (forall n l, In (n, l) files -> exists mesh, l = Ok mesh) ->
    exists st', process_loop eigh masses files st = (st', None).
Proof.
  induction files as [| [n l] files IH]; intros st Hall; simpl.
  - exists st. reflexivity.
  - destruct (Hall n l (or_introl eq_refl)) as [mesh ->].
    destruct (stl_loop_body_cases masses n (Ok mesh) st) as (st1 & -> & _).
    apply IH. intros n' l' Hin. apply (Hall n' l'). right. exact Hin.
Qed.

Lemma process_loop_other_keys :
  forall masses files st st' o k,
    process_loop eigh masses files st = (st', o) ->
    ~ In k (map fst files) ->
    dict_get (results st') k = dict_get (results st) k.
Proof.
  induction files as [| [n l] files IH]; intros st st' o k Hrun Hk;
    simpl in Hrun.
  - injection Hrun as <- _. reflexivity.
  - pose proof (stl_loop_body_cases masses n l st) as Hb.
    destruct l as [mesh | e].
    + destruct Hb as (st1 & Hb & Hres). rewrite Hb in Hrun.
      rewrite (IH st1 st' o k Hrun)
        by (intros Hin; apply Hk; right; exact Hin).
      rewrite Hres. apply dict_get_set_other.
      intros ->. apply Hk. left. reflexivity.
    + destruct Hb as (st1 & Hb & Hres & _). rewrite Hb in Hrun.
      injection Hrun as <- _. rewrite Hres. reflexivity.
Qed.

Lemma process_loop_records :
  forall masses files st st',
    NoDup (map fst files) ->
    process_loop eigh masses files st = (st', None) ->
    forall n l,
      In (n, l) files ->
      exists mesh,
        l = Ok mesh /\
        dict_get (results st') n = Some (stl_entry_of eigh masses n mesh).
Proof.
  induction files as [| [n0 l0] files IH]; intros st st' Hnd Hrun n l Hin;
    simpl in Hrun; [destruct Hin |].
  inversion Hnd as [| ? ? Hnotin Hnd']; subst.
  pose proof (stl_loop_body_cases masses n0 l0 st) as Hb.
  destruct l0 as [mesh | e].
  - destruct Hb as (st1 & Hb & Hres). rewrite Hb in Hrun.
    destruct Hin as [Heq | Hin].
    + injection Heq as <- <-. exists mesh. split; [reflexivity |].
      rewrite (process_loop_other_keys masses files st1 st' None n0 Hrun
                 Hnotin).
      rewrite Hres. apply dict_get_set_same.
    + apply (IH st1 st' Hnd' Hrun n l Hin).
  - destruct Hb as (st1 & Hb & _). rewrite Hb in Hrun. discriminate.
Qed.

Lemma process_loop_abort :
  forall masses pre name post e st,
    (forall n l, In (n, l) pre -> exists mesh, l = Ok mesh) ->
    exists st' st'',
      process_loop eigh masses pre st = (st', None) /\
      process_loop eigh masses (pre ++ (name, Raise e) :: post) st
        = (st'', Some e) /\
      results st'' = results st' /\ meshes st'' = meshes st'.
Proof.
  intros masses pre name post e st Hpre.
  destruct (process_loop_all_ok masses pre st Hpre) as [st' Hst'].
  destruct (stl_loop_body_cases masses name (Raise e) st')
    as (st'' & Hb & Hres & Hmesh).
  exists st', st''. split; [exact Hst' |].
  rewrite process_loop_app, Hst'. cbn [process_loop]. rewrite Hb.
  split; [reflexivity |]. split; assumption.
Qed.

End MeshBatch.

Section Batches.
Import CalculateInertia.

Lemma unit_cube_computes :
  calculate_inertia unit_cube
  = Ok (vget (inertia_box 1 2 2 2) I0, vget (inertia_box 1 2 2 2) I1,
        vget (inertia_box 1 2 2 2) I2, None, None).
Proof. unfold unit_cube. apply calculate_inertia_box; lra. Qed.

Lemma cone_raises :
  calculate_inertia cone = Raise (UnknownShape "cone").
Proof. reflexivity. Qed.

(** C3, as stated, fails: no loop of either script catches an exception.
    In a batch whose first body has the unknown tag "cone", the cube that
    follows would compute on its own, yet [main] ends with the error of
    the cone and the cube is neither computed nor recorded; in a directory
    whose first file does not load, [process_stl_files] ends with the load
    error and the second file is never reached. *)
Lemma batch_failure_aborts_run :
  (exists r, calculate_inertia unit_cube = Ok r) /\
  main batch_with_cone = ([], Raise (UnknownShape "cone")) /\
  dict_get (results (fst (main_loop batch_with_cone loop_init))) "cube_link"
    = None /\
  CalculateInertiaFromStl.process_stl_files eigh_of_diagonal
    directory_with_bad_file None
    = ([CalculateInertiaFromStl.Processing "broken";
        CalculateInertiaFromStl.MassNotFound "broken"],
       Raise (LoadError "broken.stl")).
Proof.
  split; [eexists; apply unit_cube_computes |].
  split; [reflexivity |]. split; reflexivity.
Qed.

(** C3, amended.  Both batch loops run until the first exception and no
    further.  If the bodies before a failing one all compute, the run
    ends with the exception of the failing body, in the state those
    earlier bodies produced: the failing body and every body after it are
    not recorded, and no results are returned.  If no body of the batch
    fails and the names are distinct, every body is computed and recorded
    under its name.  This holds for the loop of [main] in
    calculate_inertia.py and for [process_stl_files]. *)
Theorem batch_runs_until_first_exception :
  (forall pre name bad post e,
      (forall n d, In (n, d) pre -> exists r, calculate_inertia d = Ok r) ->
      calculate_inertia bad = Raise e ->
      exists st,
        main_loop pre loop_init = (st, None) /\
        main_loop (pre ++ (name, bad) :: post) loop_init = (st, Some e) /\
        main (pre ++ (name, bad) :: post) = (stdout st, Raise e)) /\
  (forall links,
      NoDup (map fst links) ->
      (forall n d, In (n, d) links -> exists r, calculate_inertia d = Ok r) ->
      (forall n d, In (n, d) links -> com_complete d) ->
      exists printed res,
        main links = (printed, Ok res) /\
        forall n d,
          In (n, d) links ->
          exists r,
            calculate_inertia d = Ok r /\
            dict_get res n = Some (entry_of d r)) /\
  (forall eigh masses pre name post e,
      (forall n l, In (n, l) pre -> exists mesh, l = Ok mesh) ->
      exists st st',
        CalculateInertiaFromStl.process_loop eigh masses pre
          CalculateInertiaFromStl.loop_init = (st, None) /\
        CalculateInertiaFromStl.process_loop eigh masses
          (pre ++ (name, Raise e) :: post)
          CalculateInertiaFromStl.loop_init = (st', Some e) /\
        CalculateInertiaFromStl.results st'
          = CalculateInertiaFromStl.results st /\
        CalculateInertiaFromStl.process_stl_files eigh
          (pre ++ (name, Raise e) :: post) (Some masses)
          = (CalculateInertiaFromStl.stdout st', Raise e)) /\
  (forall eigh masses files,
      NoDup (map fst files) ->
      (forall n l, In (n, l) files -> exists mesh, l = Ok mesh) ->
      exists printed res,
        CalculateInertiaFromStl.process_stl_files eigh files (Some masses)
          = (printed, Ok res) /\
        forall n l,
          In (n, l) files ->
          exists mesh,
            l = Ok mesh /\
            dict_get res n = Some (stl_entry_of eigh masses n mesh)).
Proof.
  split; [| split; [| split]].
  - intros pre name bad post e Hpre Hbad.
    destruct (main_loop_abort pre name bad post e loop_init Hpre Hbad)
      as (st & Hst & Hrun).
    exists st. split; [exact Hst |]. split; [exact Hrun |].
    unfold main. rewrite Hrun. reflexivity.
  - intros links Hnd Hall Hcom.
    destruct (main_loop_all_ok links loop_init Hall) as [st Hst].
    exists (stdout st), (results st).
    split; [apply main_returns; assumption |].
    apply (main_loop_records links loop_init st Hnd Hst).
  - intros eigh masses pre name post e Hpre.
    destruct (process_loop_abort eigh masses pre name post e
                CalculateInertiaFromStl.loop_init Hpre)
      as (st & st' & Hst & Hrun & Hres & _).
    exists st, st'. split; [exact Hst |]. split; [exact Hrun |].
    split; [exact Hres |].
    unfold CalculateInertiaFromStl.process_stl_files.
    rewrite Hrun. reflexivity.
  - intros eigh masses files Hnd Hall.
    destruct (process_loop_all_ok eigh masses files
                CalculateInertiaFromStl.loop_init Hall) as [st Hst].
    exists (CalculateInertiaFromStl.stdout st),
      (CalculateInertiaFromStl.results st).
    split;
      [unfold CalculateInertiaFromStl.process_stl_files; rewrite Hst;
       reflexivity |].
    apply (process_loop_records eigh masses files _ st Hnd Hst).
Qed.

Lemma batch_runs_until_first_exception_witness :
  (exists st,
      main_loop [("cube_link", unit_cube)] loop_init = (st, None) /\
      main_loop ([("cube_link", unit_cube)] ++
                 ("cone_link", cone) :: [("box_link", turned_box)])
        loop_init = (st, Some (UnknownShape "cone")) /\
      main ([("cube_link", unit_cube)] ++
            ("cone_link", cone) :: [("box_link", turned_box)])
        = (stdout st, Raise (UnknownShape "cone"))) /\
  (exists printed res,
      main [("cube_link", unit_cube)] = (printed, Ok res) /\
      forall n d,
        In (n, d) [("cube_link", unit_cube)] ->
        exists r,
          calculate_inertia d = Ok r /\
          dict_get res n = Some (entry_of d r)).
Proof.
  assert (Hcube : forall n d,
             In (n, d) [("cube_link", unit_cube)] ->
             exists r, calculate_inertia d = Ok r).
  { intros n d [H | []]. injection H as _ <-.
    eexists. apply unit_cube_computes. }
  split.
  - apply (proj1 batch_runs_until_first_exception
             [("cube_link", unit_cube)] "cone_link" cone
             [("box_link", turned_box)] (UnknownShape "cone")).
    + exact Hcube.
    + apply cone_raises.
  - apply (proj1 (proj2 batch_runs_until_first_exception)
             [("cube_link", unit_cube)]).
    + repeat constructor. simpl. tauto.
    + exact Hcube.
    + intros n d [H | []]. injection H as _ <-.
      unfold com_complete. simpl. lia.
Defined.

End Batches.

(** ** Diagonalisation *)

Section Diagonalize.
Import CalculateInertiaFromStl.

Lemma argsort_sorts :
  forall v : vec3, ascending (take v (argsort v)).
Proof.
  intros [[a b] c]. unfold argsort, ascending, take.
  decide_reals; linalg; lra.
Qed.

Lemma argsort_ascending :
  forall v : vec3, ascending v -> argsort v = (I0, I1, I2).
Proof.
  intros [[a b] c] [Hab Hbc]. unfold argsort.
  decide_reals; reflexivity.
Qed.

Lemma take_cols_identity :
  forall M : mat3, take_cols M (I0, I1, I2) = M.
Proof.
  intros M. split_mat M. reflexivity.
Qed.

Lemma take_identity :
  forall v : vec3, take v (I0, I1, I2) = v.
Proof.
  intros v. split_vec v. reflexivity.
Qed.

Lemma orthogonal_det :
  forall M : mat3, orthogonal M -> det M = 1 \/ det M = -1.
Proof.
  intros M. split_mat M. unfold orthogonal. linalg.
  intros H. injection H as H00 H01 H02 H10 H11 H12 H20 H21 H22.
  match goal with |- ?d = 1 \/ _ => assert (Hsq : d * d = 1) by nsatz end.
  match type of Hsq with ?d * _ = _ =>
    destruct (Rle_dec 0 d); [left | right]; nra
  end.
Qed.

Lemma negate_col0_det :
  forall M : mat3, det (negate_col0 M) = - det M.
Proof.
  intros M. split_mat M. unfold negate_col0. linalg. ring.
Qed.

Lemma negate_col0_orthogonal :
  forall M : mat3, orthogonal M -> orthogonal (negate_col0 M).
Proof.
  intros M. split_mat M. unfold orthogonal, negate_col0. linalg.
  intros H. injection H as H00 H01 H02 H10 H11 H12 H20 H21 H22.
  tuple_eq; nsatz.
Qed.

Lemma negate_col0_eigenvectors :
  forall (A V : mat3) (w : vec3),
    matmul A V = matmul V (diag w) ->
    matmul A (negate_col0 V) = matmul (negate_col0 V) (diag w).
Proof.
  intros A V w. split_mat A. split_mat V. split_vec w.
  unfold negate_col0. linalg.
  intros H. injection H as H00 H01 H02 H10 H11 H12 H20 H21 H22.
  tuple_eq; lra.
Qed.

(** The handedness fix of [diagonalize_inertia] turns an orthogonal
    matrix into a proper rotation. *)
Lemma handedness_fix :
  forall V : mat3,
    orthogonal V ->
    rotation (if Rlt_dec (det V) 0 then negate_col0 V else V).
Proof.
  intros V Horth.
  destruct (orthogonal_det V Horth) as [Hd | Hd];
    destruct (Rlt_dec (det V) 0) as [Hneg | Hpos]; try lra.
  - split; [exact Horth | exact Hd].
  - split; [apply negate_col0_orthogonal; exact Horth |].
    rewrite negate_col0_det. lra.
Qed.

(** Whatever the matrix, the component that [from_matrix] computes from
    the diagonal is at least one, so the normalisation divides by a
    positive number. *)
Lemma from_matrix_raw_norm_pos :
  forall M : mat3,
    let '(x, y, z, w) := Rotation.from_matrix_raw M in
    1 <= x * x + y * y + z * z + w * w.
Proof.
  intros M. split_mat M.
  unfold Rotation.from_matrix_raw, Rotation.argmax4. linalg.
  decide_reals; simpl in *;
    match goal with
    | |- 1 <= ?a * ?a + ?b * ?b + ?c * ?c + ?d * ?d =>
        pose proof (Rle_0_sqr a) as Ha; pose proof (Rle_0_sqr b) as Hb;
        pose proof (Rle_0_sqr c) as Hc; pose proof (Rle_0_sqr d) as Hd;
        unfold Rsqr in Ha, Hb, Hc, Hd;
        first [ assert (1 <= a) by lra | assert (1 <= b) by lra
              | assert (1 <= c) by lra | assert (1 <= d) by lra ];
        nra
    end.
Qed.

(** For a proper rotation the unnormalised quaternion reproduces the
    matrix up to the square of its norm. *)
Lemma from_matrix_raw_matrix :
  forall M : mat3,
    rotation M ->
    let '(x, y, z, w) := Rotation.from_matrix_raw M in
    Rotation.as_matrix (x, y, z, w)
    = mscale (x * x + y * y + z * z + w * w) M.
Proof.
  intros M [Horth Hdet]. split_mat M.
  unfold orthogonal in Horth. linalg in Horth. linalg in Hdet.
  injection Horth as H00 H01 H02 H10 H11 H12 H20 H21 H22.
  unfold Rotation.from_matrix_raw. linalg.
  destruct (Rotation.argmax4 _ _ _ _); linalg; tuple_eq; nsatz.
Qed.

Lemma as_matrix_scaled :
  forall x y z w n,
    n <> 0 ->
    Rotation.as_matrix (x / n, y / n, z / n, w / n)
    = mscale (/ (n * n)) (Rotation.as_matrix (x, y, z, w)).
Proof.
  intros x y z w n Hn. linalg. tuple_eq; field; exact Hn.
Qed.

(** [from_matrix] returns a unit quaternion, and for a proper rotation
    the matrix of that quaternion is the rotation itself. *)
Lemma from_matrix_unit :
  forall M : mat3,
    let '(x, y, z, w) := Rotation.from_matrix M in
    x * x + y * y + z * z + w * w = 1.
Proof.
  intros M. unfold Rotation.from_matrix.
  pose proof (from_matrix_raw_norm_pos M) as Hpos.
  destruct (Rotation.from_matrix_raw M) as [[[x y] z] w].
  pose proof (norm_sqr x y z w) as Hs.
  set (n := Rotation.norm (x, y, z, w)) in *.
  assert (Hn : n <> 0) by (intros Hz; rewrite Hz in Hs; lra).
  replace (x / n * (x / n) + y / n * (y / n) + z / n * (z / n)
           + w / n * (w / n))
    with ((x * x + y * y + z * z + w * w) / (n * n)) by (field; exact Hn).
  rewrite <- Hs. field. exact Hn.
Qed.

Lemma from_matrix_inverts_as_matrix :
  forall M : mat3,
    rotation M ->
    Rotation.as_matrix (Rotation.from_matrix M) = M.
Proof.
  intros M Hrot. unfold Rotation.from_matrix.
  pose proof (from_matrix_raw_norm_pos M) as Hpos.
  pose proof (from_matrix_raw_matrix M Hrot) as Hmat.
  destruct (Rotation.from_matrix_raw M) as [[[x y] z] w].
  pose proof (norm_sqr x y z w) as Hs.
  set (n := Rotation.norm (x, y, z, w)) in *.
  assert (Hn : n <> 0) by (intros Hz; rewrite Hz in Hs; lra).
  rewrite (as_matrix_scaled x y z w n Hn), Hmat, Hs.
  split_mat M. linalg. tuple_eq; field; lra.
Qed.

End Diagonalize.

Section PrincipalFrame.
Import CalculateInertiaFromStl.

Lemma eigh_of_diagonal_contract :
  eigh_contract eigh_of_diagonal (diag (1, 2, 3)).
Proof.
  unfold eigh_contract, eigh_of_diagonal, ascending, orthogonal. linalg.
  split; [lra |]. split; tuple_eq; ring.
Qed.

(** C5. [diagonalize_inertia] returns the eigenvalues in ascending order
    and a scalar-first quaternion [w, x, y, z] of unit norm, and, on an
    input where the eigen-solver keeps its contract, the matrix it
    returns is a proper rotation (orthogonal, determinant +1) whose
    columns are eigenvectors for the returned eigenvalues: it is the
    eigenvector matrix of the solver, with its first column negated when
    that matrix had determinant -1.  The quaternion is the one scipy
    derives from that matrix, reordered, and converting it back gives the
    matrix again. *)
Theorem diagonalize_inertia_principal_frame :
  forall (eigh : mat3 -> vec3 * mat3) (A : mat3),
    let '(principal, Rm, quat) := diagonalize_inertia eigh A in
    let '(w, x, y, z) := quat in
    ascending principal /\
    quat_norm2 quat = 1 /\
    Rotation.from_matrix Rm = (x, y, z, w) /\
    (eigh_contract eigh A ->
     rotation Rm /\
     principal = fst (eigh A) /\
     (Rm = snd (eigh A) \/
      det (snd (eigh A)) = -1 /\ Rm = negate_col0 (snd (eigh A))) /\
     matmul A Rm = matmul Rm (diag principal) /\
     CalculateInertia.quat_to_rotation_matrix quat = Ok Rm).
Proof.
  intros eigh A. unfold diagonalize_inertia, eigh_contract.
  destruct (eigh A) as [vals V]. cbn [fst snd].
  set (V' := if Rlt_dec (det V) 0 then negate_col0 V else V).
  pose proof (from_matrix_unit (take_cols V' (argsort vals))) as Hunit.
  destruct (Rotation.from_matrix (take_cols V' (argsort vals)))
    as [[[qx qy] qz] qw] eqn:Hq.
  split; [apply argsort_sorts |].
  split; [unfold quat_norm2; lra |].
  split; [exact Hq |].
  intros (Hasc & Horth & Heig).
  rewrite (argsort_ascending vals Hasc) in *.
  rewrite take_identity. rewrite take_cols_identity in *.
  pose proof (handedness_fix V Horth) as Hrot. fold V' in Hrot.
  split; [exact Hrot |]. split; [reflexivity |].
  split; [| split].
  - subst V'. destruct (orthogonal_det V Horth) as [Hd | Hd];
      destruct (Rlt_dec (det V) 0); try lra; auto.
  - subst V'. destruct (Rlt_dec (det V) 0);
      [apply negate_col0_eigenvectors |]; exact Heig.
  - unfold CalculateInertia.quat_to_rotation_matrix.
    assert (Hn2 : quat_norm2 (qw, qx, qy, qz) = 1)
      by (unfold quat_norm2; lra).
    rewrite from_quat_nonzero by (rewrite Hn2; lra).
    rewrite (norm_unit _ _ _ _ Hn2). cbn [bind].
    unfold Rdiv. rewrite Rinv_1, !Rmult_1_r.
    rewrite <- Hq. rewrite (from_matrix_inverts_as_matrix V' Hrot).
    reflexivity.
Qed.

Lemma diagonalize_inertia_principal_frame_witness :
  let '(principal, Rm, quat) :=
    diagonalize_inertia eigh_of_diagonal (diag (1, 2, 3)) in
  rotation Rm /\
  principal = fst (eigh_of_diagonal (diag (1, 2, 3))) /\
  (Rm = snd (eigh_of_diagonal (diag (1, 2, 3))) \/
   det (snd (eigh_of_diagonal (diag (1, 2, 3)))) = -1 /\
   Rm = negate_col0 (snd (eigh_of_diagonal (diag (1, 2, 3))))) /\
  matmul (diag (1, 2, 3)) Rm = matmul Rm (diag principal) /\
  CalculateInertia.quat_to_rotation_matrix quat = Ok Rm.
Proof.
  pose proof (diagonalize_inertia_principal_frame eigh_of_diagonal
                (diag (1, 2, 3))) as H.
  destruct (diagonalize_inertia eigh_of_diagonal (diag (1, 2, 3)))
    as [[principal Rm] [[[w x] y] z]].
  apply H. exact eigh_of_diagonal_contract.
Defined.

End PrincipalFrame.

(** ** The table of the script *)

Section Table.
Import CalculateInertia.

(** The diagonal part of a result is what the shape formula gives, so for
    a mass that is not negative it passes the checker. *)
Lemma calculate_inertia_triangle :
  forall l ixx iyy izz I_full q,
    calculate_inertia l = Ok (ixx, iyy, izz, I_full, q) ->
    0 <= mass l ->
    triangle_inequalities (ixx, iyy, izz).
Proof.
  intros l ixx iyy izz I_full q H Hm.
  rewrite calculate_inertia_steps in H.
  destruct (supported_dec (shape l)) as [Hs | Hns];
    [| rewrite (dispatch_unsupported _ _ _ Hns) in H; discriminate H].
  pose proof (dispatch_cases (mass l) (shape l) (dims l) Hs) as Hd.
  destruct (dispatch (mass l) (shape l) (dims l)) as [dg | e];
    cbn [bind] in H; [| discriminate H].
  destruct Hd as (_ & _ & a & b & c & Hdg).
  assert (Htri : triangle_inequalities dg).
  { destruct Hdg as [-> | [-> | [-> | ->]]];
      [ apply box_triangle | apply cylinder_z_triangle
      | apply cylinder_y_triangle | apply sphere_triangle ]; exact Hm. }
  pose proof (orient_cases dg (quat l)) as Ho. rewrite H in Ho.
  destruct dg as [[a' b'] c'].
  destruct (quat l) as [ql |].
  - destruct Ho as (w & x & y & z & T & _ & _ & _ & Heq).
    injection Heq as -> -> -> _ _. exact Htri.
  - injection Ho as -> -> -> _ _. exact Htri.
Qed.

(** With masses that are not negative the checker stays silent through
    the whole loop and the flag [all_valid] keeps its value. *)
Lemma main_loop_quiet :
  forall links st st' o,
    (forall n d, In (n, d) links -> 0 <= mass d) ->
    main_loop links st = (st', o) ->
    stdout st' = stdout st /\ all_valid st' = all_valid st.
Proof.
  induction links as [| [n d] links IH]; intros st st' o Hm Hrun;
    simpl in Hrun.
  - injection Hrun as <- _. split; reflexivity.
  - unfold loop_body in Hrun.
    destruct (calculate_inertia d) as [r | e] eqn:Hr; cbn [bind] in Hrun.
    + destruct r as [[[[ixx iyy] izz] I_full] q].
      pose proof (calculate_inertia_triangle d _ _ _ _ _ Hr
                    (Hm n d (or_introl eq_refl))) as Htri.
      rewrite (validate_inertia_accepts n _ _ _ Htri) in Hrun.
      apply IH in Hrun;
        [| intros n' d' Hin; apply (Hm n' d'); right; exact Hin].
      cbn [stdout all_valid negb] in Hrun.
      rewrite app_nil_r in Hrun. exact Hrun.
    + injection Hrun as <- _. split; reflexivity.
Qed.

Lemma all_links_distinct : NoDup (map fst all_links).
Proof.
  unfold all_links. cbn [map fst].
  repeat (constructor;
          [ cbn [In]; intros H;
            repeat (destruct H as [H | H]; [discriminate H |]); exact H |]).
  constructor.
Qed.

Lemma all_links_well_formed :
  forall n d,
    In (n, d) all_links ->
    supported (shape d) /\ well_formed d /\ (0 <= mass d /\ com_complete d).
Proof.
  intros n d Hin. unfold all_links in Hin. cbn [In] in Hin.
  repeat (destruct Hin as [Hin | Hin];
          [ injection Hin as _ <-;
            split; [unfold supported; cbn [shape]; tauto |];
            split; [| split; [cbn [mass]; lra
                             | unfold com_complete; cbn [com List.length];
                               lia]];
            split; [cbv [dims_needed shape dims List.length String.eqb
                         Ascii.eqb Bool.eqb]; lia |];
            split;
              [ cbv [dims_needed shape dims firstn String.eqb Ascii.eqb
                     Bool.eqb];
                intros d0 Hd; apply square_fits; cbn [In] in Hd;
                repeat (destruct Hd as [<- | Hd]; [lra |]); destruct Hd |];
            cbn [quat];
            first [ exact I
                  | do 4 eexists;
                    split; [reflexivity
                           | apply zero_norm_large; unfold quat_norm2; lra] ]
          |]).
  destruct Hin.
Qed.

(** Run on its own table, [main] raises nothing: it prints no warning and
    returns an entry for each of the 33 links, holding the values that
    [calculate_inertia] gives for that link. *)
Theorem main_on_all_links :
  exists res,
    main all_links = ([], Ok res) /\
    forall n d,
      In (n, d) all_links ->
      exists r,
        calculate_inertia d = Ok r /\
        dict_get res n = Some (entry_of d r).
Proof.
  assert (Hok : forall n d,
             In (n, d) all_links -> exists r, calculate_inertia d = Ok r).
  { intros n d Hin.
    destruct (all_links_well_formed n d Hin) as (Hs & Hwf & _).
    apply (calculate_inertia_supported d Hs). exact Hwf. }
  destruct (main_loop_all_ok all_links loop_init Hok) as [st Hst].
  assert (Hquiet : stdout st = [] /\ all_valid st = true).
  { apply (main_loop_quiet all_links loop_init st None); [| exact Hst].
    intros n d Hin. apply (all_links_well_formed n d Hin). }
  exists (results st). split.
  - destruct Hquiet as [Hout _]. rewrite <- Hout.
    apply main_returns; [exact Hst |].
    intros n d Hin. apply (all_links_well_formed n d Hin).
  - apply (main_loop_records all_links loop_init st all_links_distinct Hst).
Qed.

End Table.

Section PrincipalFrameExample.
Import CalculateInertiaFromStl.

Lemma eigh_reflected_contract :
  eigh_contract eigh_reflected (diag (1, 2, 3)).
Proof.
  unfold eigh_contract, eigh_reflected, ascending, orthogonal. linalg.
  split; [lra |]. split; tuple_eq; ring.
Qed.

(** A run in which the handedness fix fires: the solver hands back the
    reflection diag(-1, 1, 1), the first column is negated, and the frame
    returned is the identity with the identity quaternion [1, 0, 0, 0]. *)
Example diagonalize_reflected :
  diagonalize_inertia eigh_reflected (diag (1, 2, 3))
  = ((1, 2, 3), identity, (1, 0, 0, 0)).
Proof.
  unfold diagonalize_inertia, eigh_reflected. linalg.
  destruct (Rlt_dec _ 0) as [_ | Hn]; [| exfalso; apply Hn; lra].
  unfold argsort. decide_reals.
  unfold negate_col0. linalg.
  unfold Rotation.from_matrix, Rotation.from_matrix_raw, Rotation.argmax4.
  linalg. decide_reals.
  unfold Rotation.norm.
  replace (sqrt _) with 4.
  - unfold identity. tuple_eq; lra.
  - symmetry.
    match goal with |- sqrt ?a = 4 => replace a with (4 * 4) by lra end.
    apply sqrt_square. lra.
Qed.

End PrincipalFrameExample.

(** ** Further properties of the rotation code *)

Section RotationLaws.
Import CalculateInertia.

Lemma orthogonal_transpose :
  forall M : mat3, orthogonal M -> matmul M (transpose M) = identity.
Proof.
  intros M. split_mat M. unfold orthogonal. linalg.
  intros H. injection H as H00 H01 H02 H10 H11 H12 H20 H21 H22.
  tuple_eq; nsatz.
Qed.

(** The rotation matrix for a quaternion of squared norm one half or
    more, written without the square root. *)
Lemma quat_to_rotation_matrix_nonzero :
  forall w x y z,
    1 / 2 <= quat_norm2 (w, x, y, z) ->
    quat_to_rotation_matrix (w, x, y, z)
    = Ok (mscale (/ quat_norm2 (w, x, y, z))
            (Rotation.as_matrix (x, y, z, w))).
Proof.
  intros w x y z Hnz. unfold quat_to_rotation_matrix.
  rewrite (from_quat_nonzero _ _ _ _ Hnz). cbn [bind].
  assert (Hn : Rotation.norm (x, y, z, w) <> 0).
  { intros H. apply norm_zero_iff in H. lra. }
  rewrite (as_matrix_scaled x y z w _ Hn), norm_sqr.
  unfold quat_norm2.
  replace (w * w + x * x + y * y + z * z)
    with (x * x + y * y + z * z + w * w) by ring.
  reflexivity.
Qed.

(** X1. [quat_to_rotation_matrix] fails with the zero-norm error of
    scipy and with no other, and it does so exactly when the four
    squares of the quaternion all round to zero: for the zero quaternion,
    and also for one as small as [1e-200, 0, 0, 0].  For a quaternion
    whose squared norm lies between one half and two, unit or not, it
    returns a matrix that in exact arithmetic is a proper rotation,
    orthogonal with determinant +1. *)
Theorem quat_to_rotation_matrix_proper :
  forall w x y z : R,
    (quat_to_rotation_matrix (w, x, y, z) = Raise ZeroNormQuaternion
     <-> x * x <= underflow_threshold /\ y * y <= underflow_threshold /\
         z * z <= underflow_threshold /\ w * w <= underflow_threshold) /\
    (forall e,
        quat_to_rotation_matrix (w, x, y, z) = Raise e ->
        e = ZeroNormQuaternion) /\
    (1 / 2 <= quat_norm2 (w, x, y, z) <= 2 ->
     exists Rm,
       quat_to_rotation_matrix (w, x, y, z) = Ok Rm /\
       rotation Rm /\ matmul Rm (transpose Rm) = identity).
Proof.
  intros w x y z. unfold quat_to_rotation_matrix.
  rewrite <- zero_norm_iff.
  destruct (Rotation.from_quat (x, y, z, w)) as [q' | e] eqn:Hq; cbn [bind].
  - pose proof (from_quat_normalises _ _ _ _ _ Hq) as Hn.
    destruct q' as [[[x' y'] z'] w']. destruct Hn as [Hunit Hz].
    split; [| split].
    + split; [intros H; discriminate H | intros H; congruence].
    + intros e H. discriminate H.
    + intros _. eexists. split; [reflexivity |].
      pose proof (as_matrix_rotation x' y' z' w' Hunit) as Hr.
      split; [exact Hr |]. apply orthogonal_transpose. apply Hr.
  - destruct (Rotation.zero_norm (x, y, z, w)) eqn:Hz.
    + rewrite (from_quat_zero_norm _ _ _ _ Hz) in Hq. injection Hq as <-.
      split; [| split].
      * split; reflexivity.
      * intros e H. injection H as <-. reflexivity.
      * intros [Hlow _]. rewrite (zero_norm_large _ _ _ _ Hlow) in Hz.
        discriminate Hz.
    + rewrite (from_quat_accepts _ _ _ _ Hz) in Hq. discriminate Hq.
Qed.

Lemma quat_to_rotation_matrix_proper_witness :
  exists Rm,
    quat_to_rotation_matrix quarter_turn_x = Ok Rm /\
    rotation Rm /\ matmul Rm (transpose Rm) = identity.
Proof.
  apply (proj2 (proj2 (quat_to_rotation_matrix_proper 1 1 0 0))).
  unfold quat_norm2. lra.
Defined.

(** X2. A quaternion and its negative stand for the same rotation, and
    [rotate_inertia] gives them the same outcome: the same tensor, or the
    same refusal. *)
Theorem rotate_inertia_sign_invariant :
  forall (d : vec3) (q : quat_wxyz),
    rotate_inertia d (quat_scale (-1) q) = rotate_inertia d q.
Proof.
  intros d [[[w x] y] z].
  unfold quat_scale, rotate_inertia, quat_to_rotation_matrix.
  assert (Hz : Rotation.zero_norm (-1 * x, -1 * y, -1 * z, -1 * w)
               = Rotation.zero_norm (x, y, z, w)).
  { unfold Rotation.zero_norm, square_underflows.
    replace (-1 * x * (-1 * x)) with (x * x) by ring.
    replace (-1 * y * (-1 * y)) with (y * y) by ring.
    replace (-1 * z * (-1 * z)) with (z * z) by ring.
    replace (-1 * w * (-1 * w)) with (w * w) by ring.
    reflexivity. }
  assert (Hn : Rotation.norm (-1 * x, -1 * y, -1 * z, -1 * w)
               = Rotation.norm (x, y, z, w)).
  { unfold Rotation.norm. f_equal. ring. }
  unfold Rotation.from_quat. rewrite Hz, Hn.
  destruct (Rotation.zero_norm (x, y, z, w)); cbn [bind]; [reflexivity |].
  set (n := Rotation.norm (x, y, z, w)).
  replace (Rotation.as_matrix (-1 * x / n, -1 * y / n, -1 * z / n, -1 * w / n))
    with (Rotation.as_matrix (x / n, y / n, z / n, w / n));
    [reflexivity |].
  linalg. unfold Rdiv. tuple_eq; ring.
Qed.

Lemma similarity_eigen :
  forall (Rm : mat3) (d : vec3),
    rotation Rm ->
    let T := matmul (matmul Rm (diag d)) (transpose Rm) in
    matmul T Rm = matmul Rm (diag d) /\
    det T = vget d I0 * vget d I1 * vget d I2.
Proof.
  intros Rm d [Horth Hdet]. split_mat Rm. split_vec d.
  unfold orthogonal in Horth. linalg in Horth. linalg in Hdet.
  injection Horth as H00 H01 H02 H10 H11 H12 H20 H21 H22.
  split.
  - linalg. tuple_eq; nsatz.
  - linalg. nsatz.
Qed.



End RotationLaws.

Section ShapesUnderRotation.
Import CalculateInertia.

(** A quarter turn about an axis exchanges the moments of the other two
    axes. *)
Lemma rotate_inertia_quarter_turns :
  forall a b c : R,
    rotate_inertia (a, b, c) quarter_turn_x = Ok (diag (a, c, b)) /\
    rotate_inertia (a, b, c) quarter_turn_y = Ok (diag (c, b, a)) /\
    rotate_inertia (a, b, c) quarter_turn_z = Ok (diag (b, a, c)).
Proof.
  intros a b c.
  unfold rotate_inertia, quarter_turn_x, quarter_turn_y, quarter_turn_z.
  repeat split;
    (rewrite quat_to_rotation_matrix_nonzero by (unfold quat_norm2; lra);
     cbn [bind]; unfold quat_norm2; linalg; f_equal; tuple_eq; field).
Qed.

(** X5. The two cylinder formulas agree with the rotation code: turning
    the tensor of a cylinder along Z by a quarter turn about X gives the
    tensor of the same cylinder along Y, and the other way round. *)
Theorem cylinder_axes_related_by_quarter_turn :
  forall m r h : R,
    rotate_inertia (inertia_cylinder_z m r h) quarter_turn_x
      = Ok (diag (inertia_cylinder_y m r h)) /\
    rotate_inertia (inertia_cylinder_y m r h) quarter_turn_x
      = Ok (diag (inertia_cylinder_z m r h)).
Proof.
  intros m r h. unfold inertia_cylinder_z, inertia_cylinder_y.
  split; cbv zeta;
    match goal with
    | |- rotate_inertia (?a, ?b, ?c) _ = _ =>
        rewrite (proj1 (rotate_inertia_quarter_turns a b c)); reflexivity
    end.
Qed.

(** X6. Turning the tensor of a box by a quarter turn about an axis gives
    the tensor of the box with the two other edge lengths exchanged. *)
Theorem box_quarter_turn_swaps_edges :
  forall m lx ly lz : R,
    rotate_inertia (inertia_box m lx ly lz) quarter_turn_x
      = Ok (diag (inertia_box m lx lz ly)) /\
    rotate_inertia (inertia_box m lx ly lz) quarter_turn_y
      = Ok (diag (inertia_box m lz ly lx)) /\
    rotate_inertia (inertia_box m lx ly lz) quarter_turn_z
      = Ok (diag (inertia_box m ly lx lz)).
Proof.
  intros m lx ly lz. unfold inertia_box. cbv zeta.
  match goal with
  | |- rotate_inertia (?a, ?b, ?c) _ = _ /\ _ =>
      destruct (rotate_inertia_quarter_turns a b c) as (Hx & Hy & Hz)
  end.
  rewrite Hx, Hy, Hz.
  repeat split; f_equal; linalg; tuple_eq; ring.
Qed.

End ShapesUnderRotation.

(** ** Diagonalise, then recompose *)

Section RoundTrip.
Import CalculateInertiaFromStl.

(** What [diagonalize_inertia] returns where the solver keeps its
    contract, with the frame named. *)
Lemma diagonalize_inertia_frame :
  forall (eigh : mat3 -> vec3 * mat3) (A : mat3),
    eigh_contract eigh A ->
    exists (vals : vec3) (Rm : mat3) (quat : quat_wxyz),
      diagonalize_inertia eigh A = (vals, Rm, quat) /\
      rotation Rm /\
      matmul A Rm = matmul Rm (diag vals) /\
      CalculateInertia.quat_to_rotation_matrix quat = Ok Rm.
Proof.
  intros eigh A. unfold diagonalize_inertia, eigh_contract.
  destruct (eigh A) as [vals V]. intros (Hasc & Horth & Heig).
  rewrite (argsort_ascending vals Hasc), take_identity, take_cols_identity.
  set (V' := if Rlt_dec (det V) 0 then negate_col0 V else V).
  pose proof (handedness_fix V Horth) as Hrot. fold V' in Hrot.
  pose proof (from_matrix_unit V') as Hunit.
  pose proof (from_matrix_inverts_as_matrix V' Hrot) as Hinv.
  destruct (Rotation.from_matrix V') as [[[qx qy] qz] qw].
  exists vals, V', (qw, qx, qy, qz).
  split; [reflexivity |]. split; [exact Hrot |]. split.
  - subst V'. destruct (Rlt_dec (det V) 0);
      [apply negate_col0_eigenvectors |]; exact Heig.
  - assert (Hn2 : quat_norm2 (qw, qx, qy, qz) = 1)
      by (unfold quat_norm2; lra).
    unfold CalculateInertia.quat_to_rotation_matrix.
    rewrite from_quat_nonzero by (rewrite Hn2; lra).
    rewrite (norm_unit _ _ _ _ Hn2). cbn [bind].
    unfold Rdiv. rewrite Rinv_1, !Rmult_1_r. rewrite Hinv. reflexivity.
Qed.

(** A matrix with an orthogonal matrix of eigenvectors is recovered from
    the eigenvalues by the similarity transform. *)
Lemma eigen_recompose :
  forall (A Rm : mat3) (d : vec3),
    orthogonal Rm ->
    matmul A Rm = matmul Rm (diag d) ->
    matmul (matmul Rm (diag d)) (transpose Rm) = A.
Proof.
  intros A Rm d Horth Heig. rewrite <- Heig.
  pose proof (orthogonal_transpose Rm Horth) as Ht.
  clear Heig Horth. split_mat A. split_mat Rm. linalg in Ht.
  injection Ht as H00 H01 H02 H10 H11 H12 H20 H21 H22.
  linalg. tuple_eq; nsatz.
Qed.

(** X7. Recomposing what [diagonalize_inertia] returns gives the tensor
    back: where the eigen-solver keeps its contract, [rotate_inertia] on
    the returned principal moments and quaternion returns the input
    tensor, so the quat-plus-diaginertia output and the full-tensor
    output describe the same inertia; the principal moments sum to the
    trace of the input and multiply to its determinant. *)
Theorem recompose_after_diagonalize :
  forall (eigh : mat3 -> vec3 * mat3) (A : mat3),
    eigh_contract eigh A ->
    let '(principal, _, quat) := diagonalize_inertia eigh A in
    CalculateInertia.rotate_inertia principal quat = Ok A /\
    vget principal I0 + vget principal I1 + vget principal I2 = trace A /\
    vget principal I0 * vget principal I1 * vget principal I2 = det A.
Proof.
  intros eigh A Hc.
  destruct (diagonalize_inertia_frame eigh A Hc)
    as (vals & Rm & quat & -> & Hrot & Heig & HR).
  pose proof (eigen_recompose A Rm vals (proj1 Hrot) Heig) as Hrec.
  split; [| split].
  - unfold CalculateInertia.rotate_inertia. rewrite HR. cbn [bind].
    rewrite Hrec. reflexivity.
  - rewrite <- Hrec at 1. symmetry.
    apply similarity_trace. apply Hrot.
  - rewrite <- Hrec at 1. symmetry.
    apply (similarity_eigen Rm vals Hrot).
Qed.

Lemma recompose_after_diagonalize_witness :
  let '(principal, _, quat) :=
    diagonalize_inertia eigh_reflected (diag (1, 2, 3)) in
  CalculateInertia.rotate_inertia principal quat = Ok (diag (1, 2, 3)) /\
  vget principal I0 + vget principal I1 + vget principal I2
    = trace (diag (1, 2, 3)) /\
  vget principal I0 * vget principal I1 * vget principal I2
    = det (diag (1, 2, 3)).
Proof.
  apply (recompose_after_diagonalize eigh_reflected (diag (1, 2, 3))).
  exact eigh_reflected_contract.
Defined.

End RoundTrip.

(** ** Further properties of the validity checkers *)

Section CheckerLaws.

(** X8. When the three moments are not negative, at most one of the three
    inequalities can fail, so either checker prints at most one
    warning. *)
Theorem validate_inertia_at_most_one_warning :
  forall (name : string) (ixx iyy izz : R),
    0 <= ixx -> 0 <= iyy -> 0 <= izz ->
    (List.length (fst (CalculateInertia.validate_inertia name ixx iyy izz))
     <= 1)%nat /\
    (List.length
       (fst (CalculateInertiaFromStl.validate_inertia name ixx iyy izz))
     <= 1)%nat.
Proof.
  intros name ixx iyy izz Hx Hy Hz.
  unfold CalculateInertia.validate_inertia,
    CalculateInertiaFromStl.validate_inertia.
  split.
  - destruct (Rlt_dec (ixx + iyy) izz), (Rlt_dec (iyy + izz) ixx),
      (Rlt_dec (izz + ixx) iyy); cbn [fst List.length app]; try lia; lra.
  - destruct (Rlt_dec (ixx + iyy) (izz - 1e-10)),
      (Rlt_dec (iyy + izz) (ixx - 1e-10)),
      (Rlt_dec (izz + ixx) (iyy - 1e-10));
      cbn [fst List.length app]; try lia; lra.
Qed.

Lemma validate_inertia_at_most_one_warning_witness :
  (List.length (fst (CalculateInertia.validate_inertia "link" 1 1 3))
   <= 1)%nat /\
  (List.length (fst (CalculateInertiaFromStl.validate_inertia "link" 1 1 3))
   <= 1)%nat.
Proof.
  apply (validate_inertia_at_most_one_warning "link" 1 1 3); lra.
Defined.

(** X9. The checker of calculate_inertia_from_stl.py is the more lenient
    of the two: every warning it prints is also printed by the checker of
    calculate_inertia.py on the same moments, and it accepts whatever
    that one accepts. *)
Theorem tolerant_checker_is_weaker :
  forall (name : string) (ixx iyy izz : R),
    incl (fst (CalculateInertiaFromStl.validate_inertia name ixx iyy izz))
         (fst (CalculateInertia.validate_inertia name ixx iyy izz)) /\
    (snd (CalculateInertia.validate_inertia name ixx iyy izz) = true ->
     snd (CalculateInertiaFromStl.validate_inertia name ixx iyy izz)
     = true).
Proof.
  intros name ixx iyy izz.
  rewrite validate_inertia_stl_tolerant, validate_inertia_exact.
  cbn [fst snd]. split.
  - intros w Hin.
    apply diagnostics_in in Hin. apply diagnostics_in.
    destruct Hin as [[-> H] | [[-> H] | [-> H]]];
      [left | right; left | right; right]; split; try reflexivity; lra.
  - destruct (Rlt_dec (ixx + iyy) izz), (Rlt_dec (iyy + izz) ixx),
      (Rlt_dec (izz + ixx) iyy); try discriminate.
    intros _. decide_reals; reflexivity.
Qed.

End CheckerLaws.

(** ** Further properties of [calculate_inertia] and [main] *)

Section DispatchLaws.
Import CalculateInertia.

(** Entries of [dims] beyond those the shape needs are not read. *)
Lemma dispatch_extra :
  forall m s ds extra,
    (dims_needed s <= List.length ds)%nat ->
    dispatch m s (ds ++ extra) = dispatch m s ds.
Proof.
  intros m s ds extra. unfold dispatch, dims_needed.
  destruct (String.eqb s "box");
    [| destruct (String.eqb s "cylinder_z");
       [| destruct (String.eqb s "cylinder_y");
          [| destruct (String.eqb s "sphere"); [| reflexivity]]]].
  all: destruct ds as [| d0 [| d1 [| d2 ds]]];
    cbn [List.length app index nth_error bind]; intros H; try lia;
    reflexivity.
Qed.

(** X11. [calculate_inertia] reads exactly the dimensions its shape
    needs (three for a box, two for a cylinder, one for a sphere): on a
    supported shape it raises [IndexError] exactly when [dims] is shorter
    than that, and entries of [dims] beyond those are ignored. *)
Theorem calculate_inertia_reads_needed_dims :
  forall l : link_data,
    supported (shape l) ->
    (calculate_inertia l = Raise IndexError
     <-> (List.length (dims l) < dims_needed (shape l))%nat) /\
    (forall extra : list R,
        (dims_needed (shape l) <= List.length (dims l))%nat ->
        calculate_inertia (with_dims l (dims l ++ extra))
        = calculate_inertia l).
Proof.
  intros l Hs. split.
  - rewrite calculate_inertia_steps.
    pose proof (dispatch_cases (mass l) (shape l) (dims l) Hs) as Hd.
    destruct (dispatch (mass l) (shape l) (dims l)) as [dg | e]; cbn [bind].
    + destruct Hd as (Hlen & _).
      pose proof (orient_cases dg (quat l)) as Ho.
      split; [| lia].
      intros H. rewrite H in Ho.
      destruct Ho as (ql & _ & [[He _] | [He _]]); discriminate He.
    + destruct Hd as [[-> Hshort] | [-> (Hlen & _)]].
      * split; [intros _; exact Hshort | reflexivity].
      * split; [intros H; discriminate H | lia].
  - intros extra Hlen. rewrite !calculate_inertia_steps.
    unfold with_dims. cbn [mass shape dims quat].
    rewrite (dispatch_extra _ _ _ extra Hlen). reflexivity.
Qed.

Lemma calculate_inertia_reads_needed_dims_witness :
  (calculate_inertia unit_cube = Raise IndexError
   <-> (List.length (dims unit_cube) < dims_needed (shape unit_cube))%nat) /\
  (forall extra : list R,
      (dims_needed (shape unit_cube) <= List.length (dims unit_cube))%nat ->
      calculate_inertia (with_dims unit_cube (dims unit_cube ++ extra))
      = calculate_inertia unit_cube).
Proof.
  apply (calculate_inertia_reads_needed_dims unit_cube).
  left. reflexivity.
Defined.

(** X12. Giving a body an orientation never changes the three principal
    moments [calculate_inertia] returns: the same entry without its
    [quat] returns the same moments.  With an orientation the function
    hands the quaternion back as given, and the full tensor it adds has,
    in exact arithmetic, the sum of the three moments as trace and their
    product as determinant; without one, tensor and quaternion are both
    [None]. *)
Theorem calculate_inertia_orientation :
  forall (l : link_data) (ixx iyy izz : R) (I_full : option mat3)
         (qo : option (list R)),
    calculate_inertia l = Ok (ixx, iyy, izz, I_full, qo) ->
    calculate_inertia (without_quat l) = Ok (ixx, iyy, izz, None, None) /\
    qo = quat l /\
    match quat l with
    | None => I_full = None
    | Some _ =>
        exists T,
          I_full = Some T /\
          trace T = ixx + iyy + izz /\ det T = ixx * iyy * izz
    end.
Proof.
  intros l ixx iyy izz I_full qo H.
  assert (Hwo : forall dg,
             dispatch (mass l) (shape l) (dims l) = Ok dg ->
             calculate_inertia (without_quat l)
             = Ok (vget dg I0, vget dg I1, vget dg I2, None, None)).
  { intros dg Hd. rewrite calculate_inertia_steps.
    unfold without_quat. cbn [mass shape dims quat]. rewrite Hd.
    reflexivity. }
  rewrite calculate_inertia_steps in H.
  destruct (dispatch (mass l) (shape l) (dims l)) as [dg | e];
    cbn [bind] in H; [| discriminate H].
  specialize (Hwo dg eq_refl).
  pose proof (orient_cases dg (quat l)) as Ho. rewrite H in Ho.
  destruct (quat l) as [ql |].
  - destruct Ho as (w & x & y & z & T & _ & _ & HT & Heq).
    injection Heq as -> -> -> -> ->.
    split; [exact Hwo |]. split; [reflexivity |].
    exists T. split; [reflexivity |].
    pose proof (rotate_inertia_cases dg w x y z) as Hc. rewrite HT in Hc.
    destruct Hc as (_ & Rm & _ & Hrot & ->).
    split; [apply similarity_trace; apply Hrot |].
    apply (similarity_eigen Rm dg Hrot).
  - injection Ho as -> -> -> -> ->.
    split; [exact Hwo |]. split; reflexivity.
Qed.

Lemma rotate_inertia_third_turn :
  forall a b c : R,
    rotate_inertia (a, b, c) (0.5, 0.5, 0.5, 0.5) = Ok (diag (c, a, b)).
Proof.
  intros a b c. unfold rotate_inertia.
  rewrite quat_to_rotation_matrix_nonzero by (unfold quat_norm2; lra).
  replace (quat_norm2 (0.5, 0.5, 0.5, 0.5)) with 1
    by (unfold quat_norm2; lra).
  cbn [bind]. rewrite Rinv_1. linalg. f_equal. tuple_eq; lra.
Qed.

Lemma turned_box_computes :
  let '(ixx, iyy, izz) := inertia_box 1 1 2 3 in
  calculate_inertia turned_box
  = Ok (ixx, iyy, izz, Some (diag (izz, ixx, iyy)),
        Some [0.5; 0.5; 0.5; 0.5]).
Proof.
  unfold calculate_inertia, turned_box, inertia_box.
  cbn [mass shape dims quat String.eqb Ascii.eqb Bool.eqb index nth_error
       bind unpack4].
  rewrite power_check_fits by dims_fit. cbn [bind].
  rewrite rotate_inertia_third_turn. reflexivity.
Qed.

Lemma calculate_inertia_orientation_witness :
  let '(ixx, iyy, izz) := inertia_box 1 1 2 3 in
  calculate_inertia (without_quat turned_box)
    = Ok (ixx, iyy, izz, None, None) /\
  Some [0.5; 0.5; 0.5; 0.5] = quat turned_box /\
  exists T,
    Some (diag (izz, ixx, iyy)) = Some T /\
    trace T = ixx + iyy + izz /\ det T = ixx * iyy * izz.
Proof.
  pose proof turned_box_computes as H.
  unfold inertia_box in *. cbv zeta in *.
  exact (calculate_inertia_orientation turned_box _ _ _ _ _ H).
Defined.

End DispatchLaws.

Section MainLoopLaws.
Import CalculateInertia.

Lemma validate_inertia_silent_iff :
  forall name ixx iyy izz,
    snd (validate_inertia name ixx iyy izz) = true
    <-> fst (validate_inertia name ixx iyy izz) = [].
Proof.
  intros name ixx iyy izz. unfold validate_inertia.
  destruct (Rlt_dec (ixx + iyy) izz), (Rlt_dec (iyy + izz) ixx),
    (Rlt_dec (izz + ixx) iyy); cbn [fst snd app];
    split; intros H; try discriminate H; reflexivity.
Qed.

Lemma main_loop_flag_invariant :
  forall links st,
    (all_valid st = true <-> stdout st = []) ->
    all_valid (fst (main_loop links st)) = true
    <-> stdout (fst (main_loop links st)) = [].
Proof.
  induction links as [| [n d] links IH]; intros st Hinv;
    cbn [main_loop fst]; [exact Hinv |].
  unfold loop_body.
  destruct (calculate_inertia d) as [[[[[ixx iyy] izz] I_full] q] | e];
    cbn [bind fst]; [| exact Hinv].
  pose proof (validate_inertia_silent_iff n ixx iyy izz) as Hv.
  destruct (validate_inertia n ixx iyy izz) as [printed valid].
  cbn [fst snd] in Hv. apply IH. cbn [all_valid stdout].
  destruct valid; cbn [negb].
  - rewrite (proj1 Hv eq_refl), app_nil_r. exact Hinv.
  - split; [discriminate |]. intros Happ.
    apply app_eq_nil in Happ. destruct Happ as [_ Hp].
    apply Hv in Hp. discriminate Hp.
Qed.

(** X13. The flag [all_valid] that [main] keeps while it loops over the
    table is [True] at the end of the loop exactly when the checker has
    printed no warning for any body it processed. *)
Theorem main_flag_iff_no_warning :
  forall links : list (string * link_data),
    all_valid (fst (main_loop links loop_init)) = true
    <-> stdout (fst (main_loop links loop_init)) = [].
Proof.
  intros links. apply main_loop_flag_invariant.
  cbn [loop_init all_valid stdout]. split; reflexivity.
Qed.

Lemma dict_set_fresh :
  forall (V : Type) (d : list (string * V)) k v,
    ~ In k (map fst d) -> dict_set d k v = d ++ [(k, v)].
Proof.
  induction d as [| [k' v'] d IH]; intros k v Hk; cbn [dict_set app].
  - reflexivity.
  - destruct (String.eqb_spec k' k) as [-> | Hne].
    + exfalso. apply Hk. left. reflexivity.
    + rewrite IH; [reflexivity |].
      intros Hin. apply Hk. right. exact Hin.
Qed.

Lemma processed_names :
  forall links n, In n (map fst (processed links)) -> In n (map fst links).
Proof.
  induction links as [| [n0 d0] links IH]; intros n Hin;
    cbn [processed] in Hin; [exact Hin |].
  destruct (calculate_inertia d0); [| destruct Hin].
  destruct Hin as [<- | Hin]; [left; reflexivity |].
  right. apply IH. exact Hin.
Qed.

Lemma main_loop_results :
  forall links st,
    NoDup (map fst (results st) ++ map fst links) ->
    results (fst (main_loop links st)) = results st ++ processed links.
Proof.
  induction links as [| [n d] links IH]; intros st Hnd;
    cbn [main_loop processed fst].
  - rewrite app_nil_r. reflexivity.
  - pose proof (loop_body_cases n d st) as Hb.
    destruct (calculate_inertia d) as [r | e].
    + destruct Hb as (st1 & -> & Hres).
      assert (Hfresh : ~ In n (map fst (results st))).
      { intros Hin. cbn [map fst] in Hnd.
        apply NoDup_remove_2 in Hnd. apply Hnd.
        apply in_or_app. left. exact Hin. }
      rewrite (dict_set_fresh _ _ _ _ Hfresh) in Hres.
      rewrite IH, Hres.
      * rewrite <- app_assoc. reflexivity.
      * rewrite Hres, map_app, <- app_assoc. exact Hnd.
    + rewrite Hb. cbn [fst]. rewrite app_nil_r. reflexivity.
Qed.

(** X14. The check is advisory: a body is recorded whether or not its
    moments pass it.  For a table with distinct names the [results]
    that the loop of [main] has built when it stops hold one entry per
    body, in table order, for all bodies up to the first one whose
    computation raises, each with the mass, centre of mass and moments
    of that body. *)
Theorem main_records_in_order :
  forall links : list (string * link_data),
    NoDup (map fst links) ->
    results (fst (main_loop links loop_init)) = processed links.
Proof.
  intros links Hnd.
  rewrite main_loop_results; [reflexivity |].
  exact Hnd.
Qed.

Lemma main_records_in_order_witness :
  results (fst (main_loop [("ghost", antimatter_box); ("cube", unit_cube);
                           ("cone", cone); ("late", unit_cube)] loop_init))
  = processed [("ghost", antimatter_box); ("cube", unit_cube);
               ("cone", cone); ("late", unit_cube)].
Proof.
  apply (main_records_in_order
           [("ghost", antimatter_box); ("cube", unit_cube);
            ("cone", cone); ("late", unit_cube)]).
  cbn [map fst].
  repeat (constructor;
          [ cbn [In]; intros H;
            repeat (destruct H as [H | H]; [discriminate H |]); exact H |]).
  constructor.
Defined.

(** The body of negative mass is recorded although the checker warns
    about it three times, and nothing is recorded from the cone on. *)
Example main_records_invalid_body :
  map fst (processed [("ghost", antimatter_box); ("cube", unit_cube);
                      ("cone", cone); ("late", unit_cube)])
    = ["ghost"; "cube"] /\
  List.length (stdout (fst (main_loop [("ghost", antimatter_box)] loop_init)))
    = 3%nat.
Proof.
  assert (Hg : calculate_inertia antimatter_box
               = Ok (vget (inertia_box (-1) 1 2 3) I0,
                     vget (inertia_box (-1) 1 2 3) I1,
                     vget (inertia_box (-1) 1 2 3) I2,
                     @None mat3, @None (list R)))
    by (apply calculate_inertia_box; lra).
  assert (Hc : calculate_inertia cone = Raise (UnknownShape "cone"))
    by reflexivity.
  split.
  - cbn [processed]. rewrite Hg, unit_cube_computes, Hc. reflexivity.
  - cbn [main_loop loop_body fst]. unfold loop_body. rewrite Hg.
    cbn [bind]. unfold validate_inertia, inertia_box. linalg.
    decide_reals. reflexivity.
Qed.

End MainLoopLaws.

(** ** Further properties of the mesh calculator *)

Section MeshLaws.
Import CalculateInertiaFromStl.

(** The two branches of [compute_inertia_from_mesh], written out. *)
Lemma compute_inertia_from_mesh_cases :
  forall (mesh : Trimesh.mesh) (m : R),
    (0 < Trimesh.volume mesh ->
     compute_inertia_from_mesh mesh m
     = (Trimesh.set_density mesh (m / Trimesh.volume mesh), [],
        (Trimesh.center_mass mesh,
         mscale (m / Trimesh.volume mesh) (Trimesh.geom_unit_inertia mesh))))
    /\
    (Trimesh.volume mesh <= 0 ->
     compute_inertia_from_mesh mesh m
     = (mesh, [InvalidVolume],
        (box_center (Trimesh.bounds mesh),
         let '(lx, ly, lz) := box_extents (Trimesh.bounds mesh) in
         diag (CalculateInertia.inertia_box m lx ly lz)))).
Proof.
  intros mesh m. unfold compute_inertia_from_mesh. split; intros Hv.
  - destruct (Rlt_dec 0 (Trimesh.volume mesh)) as [_ | Hn]; [| lra].
    destruct (Rle_dec (Trimesh.volume (Trimesh.set_density mesh _)) 0)
      as [Hle | _]; [cbn in Hle; unfold Trimesh.volume in Hv; lra |].
    reflexivity.
  - destruct (Rlt_dec 0 (Trimesh.volume mesh)) as [Hp | _]; [lra |].
    destruct (Rle_dec (Trimesh.volume mesh) 0) as [_ | Hn]; [| lra].
    destruct (Trimesh.bounds mesh) as [[[x0 y0] z0] [[x1 y1] z1]].
    reflexivity.
Qed.

(** X15. For a mesh of positive volume the function returns the centre
    of mass of the mesh and its unit-density tensor scaled by the density
    mass / volume, prints no warning, and leaves the mesh with the
    density at which its mass, density times volume, is the target
    mass. *)
Theorem positive_volume_matches_mass :
  forall (mesh : Trimesh.mesh) (m : R),
    0 < Trimesh.volume mesh ->
    let '(mesh', printed, (com, inertia)) :=
      compute_inertia_from_mesh mesh m in
    com = Trimesh.center_mass mesh /\
    inertia
    = mscale (m / Trimesh.volume mesh) (Trimesh.geom_unit_inertia mesh) /\
    inertia = Trimesh.moment_inertia mesh' /\
    printed = [] /\
    Trimesh.density mesh' * Trimesh.volume mesh' = m.
Proof.
  intros mesh m Hv.
  rewrite (proj1 (compute_inertia_from_mesh_cases mesh m) Hv).
  repeat split. cbn. unfold Trimesh.volume in *. field. lra.
Qed.

Lemma positive_volume_matches_mass_witness :
  let '(mesh', printed, (com, inertia)) :=
    compute_inertia_from_mesh solid_mesh 3 in
  com = Trimesh.center_mass solid_mesh /\
  inertia
  = mscale (3 / Trimesh.volume solid_mesh)
      (Trimesh.geom_unit_inertia solid_mesh) /\
  inertia = Trimesh.moment_inertia mesh' /\
  printed = [] /\
  Trimesh.density mesh' * Trimesh.volume mesh' = 3.
Proof.
  apply (positive_volume_matches_mass solid_mesh 3). cbn. lra.
Defined.

(** X16. The tensor is linear in the target mass, for every mesh,
    degenerate or not: with the mass multiplied by [k] the function
    returns the same centre of mass, prints the same lines and returns
    [k] times the tensor. *)
Theorem mesh_inertia_linear_in_mass :
  forall (mesh : Trimesh.mesh) (m k : R),
    let '(_, printed1, (com1, inertia1)) :=
      compute_inertia_from_mesh mesh m in
    let '(_, printed2, (com2, inertia2)) :=
      compute_inertia_from_mesh mesh (k * m) in
    com2 = com1 /\ printed2 = printed1 /\ inertia2 = mscale k inertia1.
Proof.
  intros mesh m k.
  destruct (Rlt_dec 0 (Trimesh.volume mesh)) as [Hp | Hn].
  - rewrite !(proj1 (compute_inertia_from_mesh_cases mesh _) Hp).
    split; [reflexivity |]. split; [reflexivity |].
    destruct (Trimesh.geom_unit_inertia mesh) as [[[[a b] c] [[d e] f]] [[g h] i]].
    unfold Trimesh.volume in *. linalg. tuple_eq; field; lra.
  - assert (Hle : Trimesh.volume mesh <= 0) by lra.
    rewrite !(proj2 (compute_inertia_from_mesh_cases mesh _) Hle).
    split; [reflexivity |]. split; [reflexivity |].
    destruct (box_extents (Trimesh.bounds mesh)) as [[lx ly] lz].
    unfold CalculateInertia.inertia_box. linalg. tuple_eq; ring.
Qed.

(** X17. The result does not depend on the density the mesh arrives
    with, and the function is idempotent on the mesh: a second call with
    the same mass on the mesh the first call left behind returns the same
    results and leaves the mesh as it is. *)
Theorem mesh_inertia_ignores_prior_density :
  forall (mesh : Trimesh.mesh) (d m : R),
    let '(mesh1, printed1, result1) := compute_inertia_from_mesh mesh m in
    (let '(_, printed2, result2) :=
       compute_inertia_from_mesh (Trimesh.set_density mesh d) m in
     printed2 = printed1 /\ result2 = result1) /\
    compute_inertia_from_mesh mesh1 m = (mesh1, printed1, result1).
Proof.
  intros mesh d m.
  destruct (Rlt_dec 0 (Trimesh.volume mesh)) as [Hp | Hn].
  - rewrite (proj1 (compute_inertia_from_mesh_cases mesh m) Hp).
    rewrite (proj1 (compute_inertia_from_mesh_cases
                      (Trimesh.set_density mesh d) m) Hp).
    split; [split; reflexivity |].
    rewrite (proj1 (compute_inertia_from_mesh_cases
                      (Trimesh.set_density mesh _) m) Hp).
    reflexivity.
  - assert (Hle : Trimesh.volume mesh <= 0) by lra.
    rewrite (proj2 (compute_inertia_from_mesh_cases mesh m) Hle).
    rewrite (proj2 (compute_inertia_from_mesh_cases
                      (Trimesh.set_density mesh d) m) Hle).
    split; [split; reflexivity |].
    rewrite (proj2 (compute_inertia_from_mesh_cases mesh m) Hle).
    reflexivity.
Qed.

End MeshLaws.

(** ** Output of the mesh script *)

Section XmlOutput.
Import CalculateInertiaFromStl.

Lemma allclose_abs_identity :
  forall q : quat_wxyz,
    allclose (abs4 q) (1, 0, 0, 0) 1e-4 = true <-> near_identity q.
Proof.
  intros [[[w x] y] z]. unfold allclose, abs4, near_identity.
  rewrite Rabs_R0, Rabs_R1, !Rminus_0_r, !Rabs_Rabsolu.
  replace (1e-4 + 1e-05 * 1) with (1e-4 + 1e-05) by lra.
  replace (1e-4 + 1e-05 * 0) with 1e-4 by lra.
  destruct (Rle_dec (Rabs (Rabs w - 1)) (1e-4 + 1e-05)),
    (Rle_dec (Rabs x) 1e-4), (Rle_dec (Rabs y) 1e-4),
    (Rle_dec (Rabs z) 1e-4); cbn [andb];
    split; intros H; try discriminate H; try reflexivity; tauto.
Qed.

Lemma allclose_identity_abs :
  forall q : quat_wxyz,
    allclose q (1, 0, 0, 0) 1e-4 = true ->
    allclose (abs4 q) (1, 0, 0, 0) 1e-4 = true.
Proof.
  intros [[[w x] y] z] H. apply allclose_abs_identity.
  unfold allclose in H. unfold near_identity.
  rewrite Rabs_R0, Rabs_R1, !Rminus_0_r in H.
  destruct (Rle_dec (Rabs (w - 1)) (1e-4 + 1e-05 * 1)) as [Hw | _];
    [| discriminate H].
  destruct (Rle_dec (Rabs x) (1e-4 + 1e-05 * 0)) as [Hx | _];
    [| discriminate H].
  destruct (Rle_dec (Rabs y) (1e-4 + 1e-05 * 0)) as [Hy | _];
    [| discriminate H].
  destruct (Rle_dec (Rabs z) (1e-4 + 1e-05 * 0)) as [Hz | _];
    [| discriminate H].
  repeat split; try lra.
  assert (Hpos : 0 <= w).
  { unfold Rabs in Hw. destruct (Rcase_abs (w - 1)); lra. }
  rewrite (Rabs_right w) by lra. lra.
Qed.

(** X19. [output_xml_format] leaves the [quat] attribute out exactly when
    the quaternion is the identity or its negative up to tolerance: |w|
    within 1.1e-4 of 1 and |x|, |y|, |z| at most 1e-4.  The test on the
    absolute values decides alone, so [q] and [-q] are treated alike;
    otherwise the quaternion is printed as stored.  Every body gets its
    three lines in the order of [results]. *)
Theorem xml_quat_omitted_iff_near_identity :
  forall (results : list (string * entry)),
    output_xml_format results
    = flat_map
        (fun '(name, data) =>
           [ XmlComment name;
             XmlInertial (e_com data)
               (if allclose (abs4 (e_quat data)) (1, 0, 0, 0) 1e-4
                then None else Some (e_quat data))
               (e_mass data);
             XmlDiaginertia (e_principal_inertia data) ])
        results /\
    (forall name data,
        In (name, data) results ->
        (near_identity (e_quat data) ->
         In (XmlInertial (e_com data) None (e_mass data))
            (output_xml_format results)) /\
        (~ near_identity (e_quat data) ->
         In (XmlInertial (e_com data) (Some (e_quat data)) (e_mass data))
            (output_xml_format results))) /\
    (forall q : quat_wxyz,
        near_identity (quat_scale (-1) q) <-> near_identity q).
Proof.
  intros results.
  assert (Hbody : forall q : quat_wxyz,
             allclose (abs4 q) (1, 0, 0, 0) 1e-4
             || allclose q (1, 0, 0, 0) 1e-4
             = allclose (abs4 q) (1, 0, 0, 0) 1e-4).
  { intros q.
    destruct (allclose q (1, 0, 0, 0) 1e-4) eqn:H2.
    - rewrite (allclose_identity_abs q H2). reflexivity.
    - apply orb_false_r. }
  assert (Heq : output_xml_format results
                = flat_map
                    (fun '(name, data) =>
                       [ XmlComment name;
                         XmlInertial (e_com data)
                           (if allclose (abs4 (e_quat data)) (1, 0, 0, 0) 1e-4
                            then None else Some (e_quat data))
                           (e_mass data);
                         XmlDiaginertia (e_principal_inertia data) ])
                    results).
  { unfold output_xml_format.
    induction results as [| [name data] results IH]; [reflexivity |].
    cbn [flat_map]. rewrite IH, Hbody.
    destruct (allclose (abs4 (e_quat data)) (1, 0, 0, 0) 1e-4);
      reflexivity. }
  split; [exact Heq |]. split.
  - intros name data Hin. rewrite Heq.
    split; intros Hq; apply in_flat_map; exists (name, data);
      (split; [exact Hin |]); right; left.
    + rewrite (proj2 (allclose_abs_identity (e_quat data)) Hq).
      reflexivity.
    + destruct (allclose (abs4 (e_quat data)) (1, 0, 0, 0) 1e-4) eqn:Hc;
        [| reflexivity].
      exfalso. apply Hq. apply allclose_abs_identity. exact Hc.
  - intros [[[w x] y] z]. unfold quat_scale, near_identity.
    replace (-1 * w) with (- w) by ring.
    replace (-1 * x) with (- x) by ring.
    replace (-1 * y) with (- y) by ring.
    replace (-1 * z) with (- z) by ring.
    rewrite !Rabs_Ropp. tauto.
Qed.

End XmlOutput.

(** ** Mass lookup of the mesh script *)

Section MassLookup.
Import CalculateInertiaFromStl.
Variable eigh : mat3 -> vec3 * mat3.

Lemma compute_prints_no_mass_warning :
  forall mesh m n,
    let '(_, printed, _) := compute_inertia_from_mesh mesh m in
    ~ In (MassNotFound n) printed.
Proof.
  intros mesh m n. unfold compute_inertia_from_mesh.
  destruct (Rle_dec _ 0); cbn [In]; intros H;
    [destruct H as [H | []]; discriminate H | exact H].
Qed.

(** The lines one turn of the loop adds hold the missing-mass warning of
    its own link exactly when the table has no mass for it, and of no
    other link. *)
Lemma stl_loop_body_mass_warning :
  forall masses n loaded st n',
    In (MassNotFound n')
       (stdout (fst (loop_body eigh masses n loaded st)))
    <-> In (MassNotFound n') (stdout st) \/
        (n' = n /\ dict_get masses n = None).
Proof.
  intros masses n loaded st n'. unfold loop_body, load_stl.
  destruct (dict_get masses n) as [m0 |];
    destruct loaded as [mesh | e];
    try (destruct (negb (Trimesh.is_watertight mesh)));
    try (match goal with
         | |- context [compute_inertia_from_mesh ?me ?ma] =>
             pose proof (compute_prints_no_mass_warning me ma n') as Hc;
             destruct (compute_inertia_from_mesh me ma)
               as [[mesh' printed] [com inertia]]
         end;
         destruct (diagonalize_inertia eigh inertia) as [[p rot] q];
         destruct (validate_inertia n (vget p I0) (vget p I1) (vget p I2))
           as [warnings valid]);
    cbn [fst stdout]; rewrite ?in_app_iff; cbn [In];
    rewrite ?in_map_iff;
    (split;
     [ intros H;
       repeat match goal with
       | H : _ \/ _ |- _ => destruct H as [H | H]
       | H : False |- _ => destruct H
       | H : exists _, _ |- _ => destruct H as (? & H & _)
       end;
       try discriminate H; try contradiction; auto;
       injection H as ->; right; split; reflexivity
     | intros [H | [-> H]]; [tauto | try discriminate H; tauto] ]).
Qed.

Lemma process_loop_mass_warning :
  forall masses files st n',
    In (MassNotFound n')
       (stdout (fst (process_loop eigh masses files st))) ->
    In (MassNotFound n') (stdout st) \/
    (In n' (map fst files) /\ dict_get masses n' = None).
Proof.
  induction files as [| [n l] files IH]; intros st n' Hin;
    cbn [process_loop fst] in Hin; [left; exact Hin |].
  pose proof (stl_loop_body_mass_warning masses n l st n') as Hb.
  destruct (loop_body eigh masses n l st) as [st1 [e |]]; cbn [fst] in *.
  - apply Hb in Hin. destruct Hin as [H | [-> H]]; [left; exact H |].
    right. split; [left; reflexivity | exact H].
  - apply IH in Hin. destruct Hin as [H | [H1 H2]].
    + apply Hb in H. destruct H as [H | [-> H]]; [left; exact H |].
      right. split; [left; reflexivity | exact H].
    + right. split; [right; exact H1 | exact H2].
Qed.

Lemma process_loop_stdout_grows :
  forall masses files st x,
    In x (stdout st) ->
    (forall n l, In (n, l) files -> exists mesh, l = Ok mesh) ->
    In x (stdout (fst (process_loop eigh masses files st))).
Proof.
  induction files as [| [n l] files IH]; intros st x Hin Hall;
    cbn [process_loop fst]; [exact Hin |].
  destruct (Hall n l (or_introl eq_refl)) as [mesh ->].
  assert (Hstep : In x (stdout (fst (loop_body eigh masses n (Ok mesh) st)))).
  { unfold loop_body, load_stl.
    destruct (dict_get masses n);
      destruct (negb (Trimesh.is_watertight mesh));
      destruct (compute_inertia_from_mesh mesh _)
        as [[mesh' printed] [com inertia]];
      destruct (diagonalize_inertia eigh inertia) as [[p rot] q];
      destruct (validate_inertia n _ _ _) as [warnings valid];
      cbn [fst stdout]; rewrite ?in_app_iff; tauto. }
  destruct (stl_loop_body_cases eigh masses n (Ok mesh) st)
    as (st1 & Hb & _).
  rewrite Hb in *. cbn [fst] in Hstep.
  apply IH; [exact Hstep |].
  intros n0 l0 H0. apply (Hall n0 l0). right. exact H0.
Qed.

Lemma process_loop_warns_missing_mass :
  forall masses files st n,
    (forall n0 l, In (n0, l) files -> exists mesh, l = Ok mesh) ->
    In n (map fst files) ->
    dict_get masses n = None ->
    In (MassNotFound n) (stdout (fst (process_loop eigh masses files st))).
Proof.
  induction files as [| [n0 l0] files IH]; intros st n Hall Hin Hnone;
    [destruct Hin |].
  cbn [process_loop].
  destruct (Hall n0 l0 (or_introl eq_refl)) as [mesh ->].
  pose proof (stl_loop_body_mass_warning masses n0 (Ok mesh) st n) as Hw.
  destruct (stl_loop_body_cases eigh masses n0 (Ok mesh) st)
    as (st1 & Hb & _).
  rewrite Hb in *. cbn [fst] in Hw.
  assert (Hall' : forall n1 l, In (n1, l) files -> exists mesh, l = Ok mesh)
    by (intros n1 l1 H1; apply (Hall n1 l1); right; exact H1).
  destruct Hin as [Heq | Hin].
  - cbn [fst] in Heq. subst n0.
    apply process_loop_stdout_grows; [| exact Hall'].
    apply Hw. right. split; [reflexivity | exact Hnone].
  - apply IH; assumption.
Qed.

Lemma stl_entry_of_mass :
  forall masses n mesh,
    e_mass (stl_entry_of eigh masses n mesh) = mass_or_default masses n.
Proof.
  intros masses n mesh. unfold stl_entry_of, mass_or_default.
  destruct (compute_inertia_from_mesh mesh _)
    as [[mesh' printed] [com inertia]].
  destruct (diagonalize_inertia eigh inertia) as [[p rot] q].
  reflexivity.
Qed.

(** X20. [process_stl_files] takes the mass of a link from the table and
    falls back to 1 kg when the table has no entry for the link: in a run
    in which every file loads, each link is recorded with the table mass
    or 1.0, and the missing-mass warning is printed for a link exactly
    when the table lacks it.  Called without a table, the function uses
    [LINK_MASSES]. *)
Theorem missing_mass_defaults_to_one :
  forall (masses : list (string * R))
         (files : list (string * result Trimesh.mesh)),
    NoDup (map fst files) ->
    (forall n l, In (n, l) files -> exists mesh, l = Ok mesh) ->
    process_stl_files eigh files None
      = process_stl_files eigh files (Some LINK_MASSES) /\
    exists printed res,
      process_stl_files eigh files (Some masses) = (printed, Ok res) /\
      forall n l,
        In (n, l) files ->
        (exists e,
            dict_get res n = Some e /\
            e_mass e = mass_or_default masses n) /\
        (In (MassNotFound n) printed <-> dict_get masses n = None).
Proof.
  intros masses files Hnd Hall. split; [reflexivity |].
  destruct (process_loop_all_ok eigh masses files loop_init Hall)
    as [st Hst].
  exists (stdout st), (results st).
  split; [unfold process_stl_files; rewrite Hst; reflexivity |].
  intros n l Hin. split.
  - destruct (process_loop_records eigh masses files loop_init st Hnd Hst
                n l Hin) as (mesh & _ & Hget).
    eexists. split; [exact Hget | apply stl_entry_of_mass].
  - assert (Hfst : st = fst (process_loop eigh masses files loop_init))
      by (rewrite Hst; reflexivity).
    split.
    + intros Hw. rewrite Hfst in Hw.
      apply process_loop_mass_warning in Hw.
      destruct Hw as [[] | [_ H]]. exact H.
    + intros Hnone. rewrite Hfst.
      apply process_loop_warns_missing_mass; [exact Hall | | exact Hnone].
      apply (in_map fst) in Hin. exact Hin.
Qed.

End MassLookup.

Lemma missing_mass_defaults_to_one_witness :
  CalculateInertiaFromStl.process_stl_files eigh_of_diagonal
    [("pelvis", Ok solid_mesh); ("gripper", Ok flat_cube_mesh)] None
    = CalculateInertiaFromStl.process_stl_files eigh_of_diagonal
        [("pelvis", Ok solid_mesh); ("gripper", Ok flat_cube_mesh)]
        (Some CalculateInertiaFromStl.LINK_MASSES) /\
  exists printed res,
    CalculateInertiaFromStl.process_stl_files eigh_of_diagonal
      [("pelvis", Ok solid_mesh); ("gripper", Ok flat_cube_mesh)]
      (Some CalculateInertiaFromStl.LINK_MASSES) = (printed, Ok res) /\
    forall n l,
      In (n, l) [("pelvis", Ok solid_mesh); ("gripper", Ok flat_cube_mesh)] ->
      (exists e,
          dict_get res n = Some e /\
          CalculateInertiaFromStl.e_mass e
          = mass_or_default CalculateInertiaFromStl.LINK_MASSES n) /\
      (In (CalculateInertiaFromStl.MassNotFound n) printed
       <-> dict_get CalculateInertiaFromStl.LINK_MASSES n = None).
Proof.
  apply (missing_mass_defaults_to_one eigh_of_diagonal
           CalculateInertiaFromStl.LINK_MASSES
           [("pelvis", Ok solid_mesh); ("gripper", Ok flat_cube_mesh)]).
  - cbn [map fst]. constructor.
    + cbn [In]. intros [H | []]. discriminate H.
    + constructor; [intros [] | constructor].
  - intros n l [H | [H | []]]; injection H as _ <-; eexists; reflexivity.
Defined.

(** ** URDF components, quaternion errors, printing *)

Section MoreEdgeCases.
Import CalculateInertia.

(** X21. Both scripts extract the same six components, the diagonal and
    the upper triangle, and the tensor is recovered from them exactly
    when it is symmetric: the lower triangle is never read. *)
Theorem urdf_components_roundtrip :
  forall T : mat3,
    CalculateInertiaFromStl.inertia_to_urdf T = inertia_tensor_to_urdf T /\
    (tensor_of_urdf (CalculateInertiaFromStl.inertia_to_urdf T) = T
     <-> symmetric T) /\
    (forall T' : mat3,
        mget T' I0 I0 = mget T I0 I0 -> mget T' I0 I1 = mget T I0 I1 ->
        mget T' I0 I2 = mget T I0 I2 -> mget T' I1 I1 = mget T I1 I1 ->
        mget T' I1 I2 = mget T I1 I2 -> mget T' I2 I2 = mget T I2 I2 ->
        inertia_tensor_to_urdf T' = inertia_tensor_to_urdf T).
Proof.
  intros T.
  assert (Hsame : CalculateInertiaFromStl.inertia_to_urdf T
                  = inertia_tensor_to_urdf T) by reflexivity.
  split; [exact Hsame |]. split.
  - rewrite Hsame. split; apply symmetric_urdf_roundtrip.
  - intros T' H00 H01 H02 H11 H12 H22. unfold inertia_tensor_to_urdf.
    rewrite H00, H01, H02, H11, H12, H22. reflexivity.
Qed.

(** X22. The orientation of a body can make [calculate_inertia] fail in
    two ways, once shape and [dims] are in order: the unpacking error
    arises exactly when the [quat] list has not four items, and the
    zero-norm error of scipy exactly when it has four items whose
    squares all round to zero, as four zeros do and [1e-200, 0, 0, 0]
    does too. *)
Theorem calculate_inertia_quat_errors :
  forall l : link_data,
    supported (shape l) ->
    (dims_needed (shape l) <= List.length (dims l))%nat ->
    (forall d, In d (firstn (dims_needed (shape l)) (dims l)) ->
               square_overflows d = false) ->
    (calculate_inertia l = Raise UnpackError
     <-> exists ql, quat l = Some ql /\ List.length ql <> 4%nat) /\
    (calculate_inertia l = Raise ZeroNormQuaternion
     <-> exists w x y z,
           quat l = Some [w; x; y; z] /\
           x * x <= underflow_threshold /\ y * y <= underflow_threshold /\
           z * z <= underflow_threshold /\ w * w <= underflow_threshold).
Proof.
  intros l Hs Hlen Hfit. rewrite calculate_inertia_steps.
  pose proof (dispatch_cases (mass l) (shape l) (dims l) Hs) as Hd.
  destruct (dispatch (mass l) (shape l) (dims l)) as [dg | e].
  2: { exfalso. destruct Hd as [[_ Hshort] | [_ (_ & d & Hin & Hov)]];
         [lia |].
       rewrite (Hfit d Hin) in Hov. discriminate Hov. }
  cbn [bind]. clear Hd.
  pose proof (orient_cases dg (quat l)) as Ho.
  destruct (orient dg (quat l)) as [r | e].
  - split; split; intros H; try discriminate H; exfalso.
    + destruct H as (ql & Hq & Hl). rewrite Hq in Ho.
      destruct Ho as (w & x & y & z & T & -> & _). apply Hl. reflexivity.
    + destruct H as (w & x & y & z & Hq & Hu). rewrite Hq in Ho.
      destruct Ho as (w' & x' & y' & z' & T & Heq & Hz & _).
      injection Heq as <- <- <- <-.
      apply zero_norm_iff in Hu. congruence.
  - destruct Ho as (ql & Hq & [[-> Hl] | [-> (w & x & y & z & -> & Hz)]]).
    + split; split; intros H; try discriminate H; try reflexivity.
      * exists ql. split; assumption.
      * exfalso. destruct H as (w & x & y & z & Hq' & _).
        rewrite Hq in Hq'. injection Hq' as ->. apply Hl. reflexivity.
    + split; split; intros H; try discriminate H; try reflexivity.
      * exfalso. destruct H as (ql & Hq' & Hl).
        rewrite Hq in Hq'. injection Hq' as <-. apply Hl. reflexivity.
      * exists w, x, y, z. split; [exact Hq |].
        apply zero_norm_iff. exact Hz.
Qed.

Lemma calculate_inertia_quat_errors_witness :
  (calculate_inertia unoriented_box = Raise UnpackError
   <-> exists ql, quat unoriented_box = Some ql /\ List.length ql <> 4%nat) /\
  (calculate_inertia unoriented_box = Raise ZeroNormQuaternion
   <-> exists w x y z,
         quat unoriented_box = Some [w; x; y; z] /\
         x * x <= underflow_threshold /\ y * y <= underflow_threshold /\
         z * z <= underflow_threshold /\ w * w <= underflow_threshold).
Proof.
  apply (calculate_inertia_quat_errors unoriented_box).
  - left. reflexivity.
  - change (3 <= 3)%nat. lia.
  - cbv [dims_needed shape dims unoriented_box firstn String.eqb Ascii.eqb
         Bool.eqb].
    intros d Hd. apply square_fits. cbn [In] in Hd.
    repeat (destruct Hd as [<- | Hd]; [lra |]). destruct Hd.
Defined.

Lemma print_results_cases :
  forall res,
    (print_results res = Ok tt /\
     forall k e, In (k, e) res -> (3 <= List.length (e_com e))%nat) \/
    (print_results res = Raise IndexError /\
     exists k e, In (k, e) res /\ (List.length (e_com e) < 3)%nat).
Proof.
  induction res as [| [k e] res IH]; cbn [print_results].
  - left. split; [reflexivity | intros k e []].
  - unfold print_entry.
    destruct (e_com e) as [| c0 [| c1 [| c2 cs]]] eqn:Hc;
      cbn [index nth_error bind].
    1-3: right; split; [reflexivity |]; exists k, e;
      (split; [left; reflexivity | rewrite Hc; cbn [List.length]; lia]).
    destruct IH as [[-> Hall] | [-> (k' & e' & Hin & Hl)]].
    + left. split; [reflexivity |].
      intros k' e' [H | H]; [| apply (Hall k' e' H)].
      injection H as _ <-. rewrite Hc. cbn [List.length]. lia.
    + right. split; [reflexivity |]. exists k', e'.
      split; [right; exact Hin | exact Hl].
Qed.

(** X23. Computing every body is not enough for [main] to return: its
    printing loops read three coordinates of every centre of mass.  For a
    table with distinct names whose bodies all compute, [main] returns
    its results exactly when every body has at least three [com]
    coordinates, and raises [IndexError] otherwise. *)
Theorem main_returns_iff_com_complete :
  forall links : list (string * link_data),
    NoDup (map fst links) ->
    (forall n d, In (n, d) links -> exists r, calculate_inertia d = Ok r) ->
    ((exists res, snd (main links) = Ok res)
     <-> forall n d, In (n, d) links -> com_complete d) /\
    ((exists n d, In (n, d) links /\ ~ com_complete d) ->
     snd (main links) = Raise IndexError).
Proof.
  intros links Hnd Hall.
  destruct (main_loop_all_ok links loop_init Hall) as [st Hst].
  pose proof (main_loop_records links loop_init st Hnd Hst) as Hrec.
  assert (Hmain : snd (main links)
                  = (_ <- print_results (results st) ;; Ok (results st)))
    by (unfold main; rewrite Hst; reflexivity).
  rewrite Hmain.
  assert (Hshort : forall n d,
             In (n, d) links -> ~ com_complete d ->
             print_results (results st) = Raise IndexError).
  { intros n d Hin Hnc.
    destruct (print_results_cases (results st)) as [[_ Hok] | [H _]];
      [| exact H].
    exfalso. apply Hnc.
    destruct (Hrec n d Hin) as (r & _ & Hget).
    assert (Hmem : In (n, entry_of d r) (results st)).
    { clear - Hget. induction (results st) as [| [k v] res IH];
        cbn [dict_get] in Hget; [discriminate Hget |].
      destruct (String.eqb_spec k n) as [-> | Hne].
      - injection Hget as ->. left. reflexivity.
      - right. apply IH. exact Hget. }
    pose proof (Hok _ _ Hmem) as Hl. rewrite entry_of_com in Hl.
    exact Hl. }
  split.
  - split.
    + intros [res Hres] n d Hin.
      destruct (Nat.le_gt_cases 3 (List.length (com d))) as [Hle | Hgt];
        [exact Hle |].
      rewrite (Hshort n d Hin) in Hres by (unfold com_complete; lia).
      discriminate Hres.
    + intros Hcom. exists (results st).
      pose proof (main_returns links st Hst Hcom) as Hm.
      rewrite <- Hmain, Hm. reflexivity.
  - intros (n & d & Hin & Hnc).
    rewrite (Hshort n d Hin Hnc). reflexivity.
Qed.

Lemma main_returns_iff_com_complete_witness :
  ((exists res, snd (main [("cube", unit_cube); ("flat", flat_com_cube)])
                = Ok res)
   <-> forall n d,
         In (n, d) [("cube", unit_cube); ("flat", flat_com_cube)] ->
         com_complete d) /\
  ((exists n d,
       In (n, d) [("cube", unit_cube); ("flat", flat_com_cube)] /\
       ~ com_complete d) ->
   snd (main [("cube", unit_cube); ("flat", flat_com_cube)])
   = Raise IndexError).
Proof.
  apply (main_returns_iff_com_complete
           [("cube", unit_cube); ("flat", flat_com_cube)]).
  - cbn [map fst]. constructor.
    + cbn [In]. intros [H | []]. discriminate H.
    + constructor; [intros [] | constructor].
  - intros n d [H | [H | []]]; injection H as _ <-; eexists;
      [apply unit_cube_computes |].
    unfold flat_com_cube. apply calculate_inertia_box; lra.
Defined.

End MoreEdgeCases.

(** ** Advisory warnings of the mesh script *)

Section AdvisoryWarnings.
Import CalculateInertiaFromStl.
Variable eigh : mat3 -> vec3 * mat3.

Lemma compute_prints_invalid_volume :
  forall mesh m,
    let '(_, printed, _) := compute_inertia_from_mesh mesh m in
    (In InvalidVolume printed <-> Trimesh.volume mesh <= 0) /\
    (forall n, ~ In (NotWatertight n) printed).
Proof.
  intros mesh m.
  destruct (Rlt_dec 0 (Trimesh.volume mesh)) as [Hp | Hn].
  - rewrite (proj1 (compute_inertia_from_mesh_cases mesh m) Hp).
    split; [split; [intros [] | lra] | intros n []].
  - assert (Hle : Trimesh.volume mesh <= 0) by lra.
    rewrite (proj2 (compute_inertia_from_mesh_cases mesh m) Hle).
    split; [split; [intros _; exact Hle | intros _; left; reflexivity] |].
    intros n [H | []]. discriminate H.
Qed.

(** What one turn of the loop adds of the two advisory warnings. *)
Lemma stl_loop_body_advisory :
  forall masses n loaded st,
    let out := stdout (fst (loop_body eigh masses n loaded st)) in
    (forall n',
        In (NotWatertight n') out
        <-> In (NotWatertight n') (stdout st) \/
            (n' = n /\
             exists mesh,
               loaded = Ok mesh /\ Trimesh.is_watertight mesh = false)) /\
    (In InvalidVolume out
     <-> In InvalidVolume (stdout st) \/
         exists mesh, loaded = Ok mesh /\ Trimesh.volume mesh <= 0).
Proof.
  intros masses n loaded st. unfold loop_body, load_stl.
  destruct loaded as [mesh | e].
  - destruct (dict_get masses n) as [m0 |];
      destruct (Trimesh.is_watertight mesh) eqn:Hw; cbn [negb];
      match goal with
      | |- context [compute_inertia_from_mesh ?me ?ma] =>
          pose proof (compute_prints_invalid_volume me ma) as Hc;
          destruct (compute_inertia_from_mesh me ma)
            as [[mesh' printed] [com inertia]]
      end;
      destruct Hc as [Hvol Hnw];
      destruct (diagonalize_inertia eigh inertia) as [[p rot] q];
      destruct (validate_inertia n (vget p I0) (vget p I1) (vget p I2))
        as [warnings valid];
      cbn [fst stdout]; (split; [intros n' |]);
      rewrite ?in_app_iff; cbn [In]; rewrite ?in_map_iff;
      (split;
       [ intros H;
         repeat match goal with
         | H : _ \/ _ |- _ => destruct H as [H | H]
         | H : False |- _ => destruct H
         | H : exists _, _ |- _ => destruct H as (? & H & _)
         end;
         try discriminate H; auto;
         try (exfalso; eapply Hnw; eassumption);
         try (right; eexists; split; [reflexivity | apply Hvol; exact H]);
         try (injection H as ->; right; split;
              [reflexivity | eexists; split; [reflexivity | exact Hw]])
       | intros [H | H]; [tauto |];
         try (destruct H as [-> (mesh0 & Hm & Hw0)];
              injection Hm as <-; first [congruence | tauto]);
         try (destruct H as (mesh0 & Hm & Hv0); injection Hm as <-;
              apply Hvol in Hv0; tauto) ]).
  - cbn [fst stdout].
    destruct (dict_get masses n); (split; [intros n' |]);
      rewrite ?in_app_iff; cbn [In];
      (split;
       [ intros H;
         repeat match goal with
         | H : _ \/ _ |- _ => destruct H as [H | H]
         | H : False |- _ => destruct H
         end;
         try discriminate H; auto
       | intros [H | H]; [tauto |];
         first [ destruct H as [_ (mesh0 & Hm & _)]
               | destruct H as (mesh0 & Hm & _) ];
         discriminate Hm ]).
Qed.

Lemma process_loop_advisory_sound :
  forall masses files st,
    let out := stdout (fst (process_loop eigh masses files st)) in
    (forall n',
        In (NotWatertight n') out ->
        In (NotWatertight n') (stdout st) \/
        exists mesh,
          In (n', Ok mesh) files /\ Trimesh.is_watertight mesh = false) /\
    (In InvalidVolume out ->
     In InvalidVolume (stdout st) \/
     exists n mesh, In (n, Ok mesh) files /\ Trimesh.volume mesh <= 0).
Proof.
  induction files as [| [n l] files IH]; intros st; cbn [process_loop fst].
  - split; [intros n' H | intros H]; left; exact H.
  - pose proof (stl_loop_body_advisory masses n l st) as [Hw Hv].
    destruct (loop_body eigh masses n l st) as [st1 [e |]]; cbn [fst] in *.
    + split.
      * intros n' H. apply Hw in H.
        destruct H as [H | [-> (mesh & -> & Hm)]]; [left; exact H |].
        right. exists mesh. split; [left; reflexivity | exact Hm].
      * intros H. apply Hv in H.
        destruct H as [H | (mesh & -> & Hm)]; [left; exact H |].
        right. exists n, mesh. split; [left; reflexivity | exact Hm].
    + destruct (IH st1) as [IHw IHv]. split.
      * intros n' H. apply IHw in H.
        destruct H as [H | (mesh & Hin & Hm)].
        -- apply Hw in H.
           destruct H as [H | [-> (mesh & -> & Hm)]]; [left; exact H |].
           right. exists mesh. split; [left; reflexivity | exact Hm].
        -- right. exists mesh. split; [right; exact Hin | exact Hm].
      * intros H. apply IHv in H.
        destruct H as [H | (n0 & mesh & Hin & Hm)].
        -- apply Hv in H.
           destruct H as [H | (mesh & -> & Hm)]; [left; exact H |].
           right. exists n, mesh. split; [left; reflexivity | exact Hm].
        -- right. exists n0, mesh. split; [right; exact Hin | exact Hm].
Qed.

Lemma process_loop_advisory_complete :
  forall masses files st n mesh,
    (forall n0 l, In (n0, l) files -> exists mesh0, l = Ok mesh0) ->
    In (n, Ok mesh) files ->
    let out := stdout (fst (process_loop eigh masses files st)) in
    (Trimesh.is_watertight mesh = false -> In (NotWatertight n) out) /\
    (Trimesh.volume mesh <= 0 -> In InvalidVolume out).
Proof.
  induction files as [| [n0 l0] files IH]; intros st n mesh Hall Hin;
    [destruct Hin |].
  cbn [process_loop].
  destruct (Hall n0 l0 (or_introl eq_refl)) as [mesh0 ->].
  pose proof (stl_loop_body_advisory masses n0 (Ok mesh0) st) as [Hw Hv].
  destruct (stl_loop_body_cases eigh masses n0 (Ok mesh0) st)
    as (st1 & Hb & _).
  rewrite Hb in *. cbn [fst] in Hw, Hv.
  assert (Hall' : forall n1 l, In (n1, l) files -> exists m1, l = Ok m1)
    by (intros n1 l1 H1; apply (Hall n1 l1); right; exact H1).
  destruct Hin as [Heq | Hin].
  - injection Heq as -> ->. split; intros H;
      (apply process_loop_stdout_grows; [| exact Hall']).
    + apply Hw. right. split; [reflexivity |].
      exists mesh. split; [reflexivity | exact H].
    + apply Hv. right. exists mesh. split; [reflexivity | exact H].
  - apply (IH st1 n mesh Hall' Hin).
Qed.

Lemma nodup_keys_functional :
  forall (V : Type) (l : list (string * V)) k a b,
    NoDup (map fst l) -> In (k, a) l -> In (k, b) l -> a = b.
Proof.
  induction l as [| [k0 v0] l IH]; intros k a b Hnd Ha Hb;
    [destruct Ha |].
  cbn [map fst] in Hnd. inversion Hnd as [| ? ? Hnot Hnd']; subst.
  destruct Ha as [Ha | Ha], Hb as [Hb | Hb].
  - congruence.
  - injection Ha as -> _. exfalso. apply Hnot.
    apply (in_map fst) in Hb. exact Hb.
  - injection Hb as -> _. exfalso. apply Hnot.
    apply (in_map fst) in Ha. exact Ha.
  - apply (IH k a b Hnd' Ha Hb).
Qed.

(** X24. A mesh that is not watertight or has no positive volume is
    warned about and processed all the same.  In a run in which every
    file loads, with distinct names, every link is recorded; the
    not-watertight warning is printed for a link exactly when its mesh is
    not watertight, and the invalid-volume warning is printed exactly
    when some mesh of the batch has a volume that is not positive. *)
Theorem mesh_warnings_are_advisory :
  forall (masses : list (string * R))
         (files : list (string * result Trimesh.mesh)),
    NoDup (map fst files) ->
    (forall n l, In (n, l) files -> exists mesh, l = Ok mesh) ->
    exists printed res,
      process_stl_files eigh files (Some masses) = (printed, Ok res) /\
      (forall n mesh,
          In (n, Ok mesh) files ->
          dict_get res n = Some (stl_entry_of eigh masses n mesh) /\
          (In (NotWatertight n) printed
           <-> Trimesh.is_watertight mesh = false)) /\
      (In InvalidVolume printed
       <-> exists n mesh,
             In (n, Ok mesh) files /\ Trimesh.volume mesh <= 0).
Proof.
  intros masses files Hnd Hall.
  destruct (process_loop_all_ok eigh masses files loop_init Hall)
    as [st Hst].
  exists (stdout st), (results st).
  split; [unfold process_stl_files; rewrite Hst; reflexivity |].
  assert (Hfst : st = fst (process_loop eigh masses files loop_init))
    by (rewrite Hst; reflexivity).
  pose proof (process_loop_advisory_sound masses files loop_init)
    as [Hsw Hsv].
  rewrite <- Hfst in Hsw, Hsv.
  split.
  - intros n mesh Hin. split.
    + destruct (process_loop_records eigh masses files loop_init st Hnd Hst
                  n (Ok mesh) Hin) as (mesh0 & Hm & Hget).
      injection Hm as <-. exact Hget.
    + split.
      * intros H. apply Hsw in H.
        destruct H as [[] | (mesh0 & Hin0 & Hw0)].
        pose proof (nodup_keys_functional _ files n _ _ Hnd Hin Hin0) as Heq.
        injection Heq as ->. exact Hw0.
      * intros Hw. rewrite Hfst.
        apply (process_loop_advisory_complete masses files loop_init n mesh
                 Hall Hin). exact Hw.
  - split.
    + intros H. apply Hsv in H. destruct H as [[] | H]. exact H.
    + intros (n & mesh & Hin & Hv). rewrite Hfst.
      apply (process_loop_advisory_complete masses files loop_init n mesh
               Hall Hin). exact Hv.
Qed.

End AdvisoryWarnings.

Lemma mesh_warnings_are_advisory_witness :
  exists printed res,
    CalculateInertiaFromStl.process_stl_files eigh_of_diagonal
      [("open", Ok open_mesh); ("flat", Ok flat_cube_mesh)] (Some [])
      = (printed, Ok res) /\
    (forall n mesh,
        In (n, Ok mesh) [("open", Ok open_mesh); ("flat", Ok flat_cube_mesh)] ->
        dict_get res n = Some (stl_entry_of eigh_of_diagonal [] n mesh) /\
        (In (CalculateInertiaFromStl.NotWatertight n) printed
         <-> Trimesh.is_watertight mesh = false)) /\
    (In CalculateInertiaFromStl.InvalidVolume printed
     <-> exists n mesh,
           In (n, Ok mesh)
              [("open", Ok open_mesh); ("flat", Ok flat_cube_mesh)] /\
           Trimesh.volume mesh <= 0).
Proof.
  apply (mesh_warnings_are_advisory eigh_of_diagonal []
           [("open", Ok open_mesh); ("flat", Ok flat_cube_mesh)]).
  - cbn [map fst]. constructor.
    + cbn [In]. intros [H | []]. discriminate H.
    + constructor; [intros [] | constructor].
  - intros n l [H | [H | []]]; injection H as _ <-; eexists; reflexivity.
Defined.
